(** * NewRYMGenerator: a shallow embedding of [main.py]

    The program reads saved Rate Your Music pages, resolves every release
    against the Spotify catalog and appends the resulting track URIs to a
    playlist.  This file embeds the functions of [main.py] and proves
    properties about them.

    Conventions of the embedding:
    - a Python [int] is a [Z]; [len(l)] is [Z.of_nat (length l)];
    - a Python [float] is a binary64 [float] (Rocq's primitive floats);
    - a Python [str] is a [string];
    - a Python exception is a value of [exn]; code that may raise returns a
      [result];
    - the Spotify client, [input] and the parsed pages are outside the
      program: the calls made to them are recorded in a trace of [event]s,
      and what they answer is given by a [Spotify] record and a list of
      stdin lines;
    - [print] is left out, and a page is given as the list of entry nodes
      that BeautifulSoup finds in it. *)

From Stdlib Require Import ZArith List String Ascii Bool Lia Floats.
From Stdlib Require Import DecimalString.
Import ListNotations.

Set Warnings "-inexact-float".

Local Open Scope string_scope.
Local Open Scope list_scope.
Local Open Scope Z_scope.

Set Implicit Arguments.

(** ** Python exceptions and results *)

Inductive exn : Type :=
| AssertionError (msg : string)
| AttributeError
| IndexError
| TypeError
| ValueError
| EOFError.

Inductive result (A : Type) : Type :=
| Ok (a : A)
| Raise (e : exn).

Arguments Ok {A} a.
Arguments Raise {A} e.

Definition raises {A : Type} (r : result A) : Prop := exists e, r = Raise e.

Module Res.

Definition bind {A B : Type} (r : result A) (k : A -> result B) : result B :=
  match r with
  | Ok a => k a
  | Raise e => Raise e
  end.

(** [assert cond, msg] *)
Definition assert (cond : bool) (msg : string) : result unit :=
  if cond then Ok tt else Raise (AssertionError msg).

(** A list comprehension [[f x for x in l]] whose body may raise: the
    elements are evaluated left to right and the first exception ends
    the comprehension. *)
Fixpoint comprehension {A B : Type} (f : A -> result B) (l : list A)
  : result (list B) :=
  match l with
  | [] => Ok []
  | x :: l' =>
      bind (f x) (fun y =>
      bind (comprehension f l') (fun ys => Ok (y :: ys)))
  end.

End Res.

Declare Scope res_scope.
Delimit Scope res_scope with res.
Notation "x <- c1 ;; c2" := (Res.bind c1 (fun x => c2))
  (at level 61, c1 at next level, right associativity) : res_scope.
Notation "c1 ;; c2" := (Res.bind c1 (fun _ => c2))
  (at level 61, right associativity) : res_scope.

(** ** Python built-ins used by the program *)

Section Builtins.

Context {A : Type}.

Definition len (l : list A) : Z := Z.of_nat (List.length l).

(** The bound of a slice with step 1: a negative index counts from the
    end, and the result is clamped to [0 .. len]. *)
Definition slice_index (n i : Z) : Z :=
  if i <? 0 then Z.max (i + n) 0 else Z.min i n.

(** [l[start:stop]] *)
Definition py_slice (l : list A) (start stop : Z) : list A :=
  let lo := slice_index (len l) start in
  let hi := slice_index (len l) stop in
  firstn (Z.to_nat (hi - lo)) (skipn (Z.to_nat lo) l).

End Builtins.

(** The number of elements of [range(lo, hi, step)], for [step <> 0]. *)
Definition range_length (lo hi step : Z) : Z :=
  if 0 <? step then
    if lo <? hi then (hi - lo - 1) / step + 1 else 0
  else
    if hi <? lo then (lo - hi - 1) / (- step) + 1 else 0.

(** [range(lo, hi, step)]: element [i] is [lo + i * step]; a zero step is a
    [ValueError]. *)
Definition py_range (lo hi step : Z) : result (list Z) :=
  if step =? 0 then Raise ValueError
  else Ok (map (fun i => lo + Z.of_nat i * step)
               (seq 0 (Z.to_nat (range_length lo hi step)))).

(** [sub in s] for two strings. *)
Fixpoint contains (sub s : string) : bool :=
  String.prefix sub s ||
  match s with
  | EmptyString => false
  | String _ s' => contains sub s'
  end.

(** [c.lower()] on an ASCII letter; other bytes are unchanged. *)
Definition lower_ascii (c : ascii) : ascii :=
  let n := nat_of_ascii c in
  if (65 <=? n)%nat && (n <=? 90)%nat then ascii_of_nat (n + 32) else c.

(** [s.lower()] *)
Fixpoint lower (s : string) : string :=
  match s with
  | EmptyString => EmptyString
  | String c s' => String (lower_ascii c) (lower s')
  end.

(** ** The world outside the program *)

(** The fields the program reads of an item of a track search, or of an
    item of [album_tracks]: [uri], [name] and the [name] of every element
    of [artists]. *)
Record Track : Type := {
  track_uri : string;
  track_name : string;
  track_artists : list string
}.

(** The same for an item of an album search. *)
Record Album : Type := {
  album_uri : string;
  album_name : string;
  album_artists : list string
}.

(** What the Spotify service answers: the [items] of a search of each type,
    the [items] of [album_tracks], and the [id] of the playlist that
    [user_playlist_create] makes out of a user, a name and a description. *)
Record Spotify : Type := {
  search_album : string -> list Album;
  search_track : string -> list Track;
  album_tracks_items : string -> list Track;
  user_playlist_create_id : string -> string -> string -> string
}.

(** The calls that leave the program, in the order they are made.
    [print] is not recorded. *)
Inductive event : Type :=
| Input (prompt : string)
| Search (q : string) (type : string) (limit : option Z)
| AlbumTracks (album_id : string)
| UserPlaylistCreate (user name description : string)
| PlaylistAddItems (playlist_id : string) (items : list string)
| Sleep (secs : float).

Record state : Type := {
  stdin : list string;
  trace : list event
}.

(** An anchor of a page: its [href] attribute, when it has one, and its
    text. *)
Record Anchor : Type := {
  href : option string;
  text : string
}.

(** A [td.main_entry] node of a page: the first [a.list_album] and the first
    [a.list_artist] under it, when there are any. *)
Record Tag : Type := {
  list_album : option Anchor;
  list_artist : option Anchor
}.

(** A page, as the list [soup.find_all("td", class_="main_entry")].  The
    elements are options because the program tests them against [None]. *)
Definition Page : Type := list (option Tag).

(** An element of [entries_simplified]. *)
Record Simplified : Type := {
  s_artist : string;
  s_title : string
}.

(** An element of the list [parse_page] returns. *)
Record Entry : Type := {
  artist : string;
  title : string;
  type : string
}.

(** ** Computations that call the world *)

Definition M (A : Type) : Type := state -> result A * state.

Module Eff.

Definition ret {A : Type} (a : A) : M A := fun s => (Ok a, s).

Definition bind {A B : Type} (m : M A) (k : A -> M B) : M B :=
  fun s =>
    match m s with
    | (Ok a, s') => k a s'
    | (Raise e, s') => (Raise e, s')
    end.

Definition lift {A : Type} (r : result A) : M A := fun s => (r, s).

Definition emit (e : event) : M unit :=
  fun s => (Ok tt, {| stdin := stdin s; trace := trace s ++ [e] |}).

(** [input(prompt)]: the next line of stdin, [EOFError] when there is
    none. *)
Definition input (prompt : string) : M string :=
  fun s =>
    let tr := trace s ++ [Input prompt] in
    match stdin s with
    | [] => (Raise EOFError, {| stdin := []; trace := tr |})
    | line :: rest => (Ok line, {| stdin := rest; trace := tr |})
    end.

(** [for x in l: body(x)] *)
Fixpoint for_each {A : Type} (body : A -> M unit) (l : list A) : M unit :=
  match l with
  | [] => ret tt
  | x :: l' => bind (body x) (fun _ => for_each body l')
  end.

End Eff.

Declare Scope eff_scope.
Delimit Scope eff_scope with eff.
Notation "x <- c1 ;; c2" := (Eff.bind c1 (fun x => c2))
  (at level 61, c1 at next level, right associativity) : eff_scope.
Notation "c1 ;; c2" := (Eff.bind c1 (fun _ => c2))
  (at level 61, right associativity) : eff_scope.

(** ** class Utils *)

(** [list_splitted = [l[x:x+n] for x in range(0, len(l), n)]] *)
Definition divide_chunks {A : Type} (l : list A) (n : Z)
  : result (list (list A)) :=
  (xs <- py_range 0 (len l) n ;;
   Ok (map (fun x => py_slice l x (x + n)) xs))%res.

(** The default value of [n] in [divide_chunks]. *)
Definition divide_chunks_default_n : Z := 99.

(** The windows of width [n] of [l] at [0], [n], ..., [(k-1) * n]: what
    [divide_chunks] is shown to return for [1 <= n]. *)
Definition windows {A : Type} (l : list A) (n k : nat) : list (list A) :=
  map (fun i => firstn n (skipn (i * n)%nat l)) (seq 0 k).

(** The default value of [similarity_threshold]. *)
Definition default_similarity_threshold : float := 0.95%float.

(** The default value of [description] in [create_playlist]. *)
Definition default_description : string := "Curated by yours truly.".

Section Program.

(** The answers of the Spotify service, [SequenceMatcher(None, a, b).ratio()]
    of [difflib], and the environment variable [USER_ID]. *)
Variable spotify : Spotify.
Variable ratio : string -> string -> float.
Variable USER_ID : string.

(** [Utils.str_similarity] *)
Definition str_similarity (lhs_title rhs_title : string) : float :=
  ratio lhs_title rhs_title.

(** ** class SpotifyAuthManager *)

Definition create_playlist (title description : string) : M string :=
  (Eff.emit (UserPlaylistCreate USER_ID title description) ;;
   Eff.ret (user_playlist_create_id spotify USER_ID title description))%eff.

Definition playlist_add_items (playlist_id : string) (items : list string)
  : M unit :=
  Eff.emit (PlaylistAddItems playlist_id items).

Definition add_tracks_to_playlist (playlist_id : string)
  (tracks : list string) : M unit :=
  if 99 <=? len tracks then
    (chunks <- Eff.lift (divide_chunks tracks divide_chunks_default_n) ;;
     Eff.for_each (fun chunk => playlist_add_items playlist_id chunk) chunks)%eff
  else
    playlist_add_items playlist_id tracks.

(** [self.spotify.album_tracks(album_id=album_id)] followed by
    [[track["uri"] for track in album_tracks_query["items"]]] *)
Definition album_track_uris (album_id : string) : M (list string) :=
  (Eff.emit (AlbumTracks album_id) ;;
   Eff.ret (map track_uri (album_tracks_items spotify album_id)))%eff.

(** [l[0]] *)
Definition first {A : Type} (l : list A) : result A :=
  match l with
  | [] => Raise IndexError
  | x :: _ => Ok x
  end.

Definition get_tracks_from_album (artist_name title : string)
  (similarity_threshold : float) : M (list string) :=
  (let query := (artist_name ++ " " ++ title)%string in
   Eff.emit (Search query "album" None) ;;
   let albums := search_album spotify query in
   match albums with
   | [] => Eff.ret []
   | album :: _ =>
       let album_id := album_uri album in
       if (similarity_threshold =? 0.0)%float then
         album_track_uris album_id
       else
         let album_name := album_name album in
         artist <- Eff.lift (first (album_artists album)) ;;
         let artist_similarity := str_similarity artist artist_name in
         let title_similarity := str_similarity title album_name in
         if (similarity_threshold <=? artist_similarity)%float
            && (similarity_threshold <=? title_similarity)%float
         then album_track_uris album_id
         else Eff.ret []
   end)%eff.

Definition get_track (artist_name title : string)
  (similarity_threshold : float) : M string :=
  (let query := (artist_name ++ " " ++ title)%string in
   Eff.emit (Search query "track" (Some 2)) ;;
   let tracks := search_track spotify query in
   match tracks with
   | [] => Eff.ret ""
   | track :: _ =>
       if (similarity_threshold =? 0.0)%float then
         Eff.ret (track_uri track)
       else
         artist <- Eff.lift (first (track_artists track)) ;;
         let track_name := track_name track in
         let artist_similarity := str_similarity artist artist_name in
         let title_similarity := str_similarity track_name title in
         if (similarity_threshold <=? artist_similarity)%float
            && (similarity_threshold <=? title_similarity)%float
         then Eff.ret (track_uri track)
         else Eff.ret ""
   end)%eff.

(** ** class RYMParser *)

(** [item.find("a", class_="list_album").get("href")] *)
Definition item_url (item : option Tag) : result (option string) :=
  match item with
  | None => Raise AttributeError
  | Some tag =>
      match list_album tag with
      | None => Raise AttributeError
      | Some a => Ok (href a)
      end
  end.

(** The dictionary built for one entry of [entries_simplified]. *)
Definition simplify (entry : Tag) : result Simplified :=
  match list_artist entry with
  | None => Raise AttributeError
  | Some a =>
      match list_album entry with
      | None => Raise AttributeError
      | Some b => Ok {| s_artist := text a; s_title := text b |}
      end
  end.

(** [[{...} for entry in list_items if entry is not None]] *)
Fixpoint simplify_entries (list_items : Page) : result (list Simplified) :=
  match list_items with
  | [] => Ok []
  | None :: rest => simplify_entries rest
  | Some entry :: rest =>
      (e <- simplify entry ;;
       es <- simplify_entries rest ;;
       Ok (e :: es))%res
  end.

(** ["track" if "/release/single/" in url else "album"]; [in] on [None] is a
    [TypeError]. *)
Definition release_type_of (url : option string) : result string :=
  match url with
  | None => Raise TypeError
  | Some u => Ok (if contains "/release/single/" u then "track" else "album")
  end.

(** [l[index]] for an index that is not negative. *)
Definition item_at {A : Type} (l : list A) (index : nat) : result A :=
  match nth_error l index with
  | None => Raise IndexError
  | Some x => Ok x
  end.

(** The loop [for index, url in enumerate(urls)] of [parse_page], from
    [index] on, with [results] as it is before the iteration. *)
Fixpoint append_results (index : nat) (urls : list (option string))
  (entries_simplified : list Simplified) (results : list Entry)
  : result (list Entry) :=
  match urls with
  | [] => Ok results
  | url :: urls' =>
      (release_type <- release_type_of url ;;
       e <- item_at entries_simplified index ;;
       append_results (S index) urls' entries_simplified
         (results ++ [{| artist := s_artist e;
                         title := s_title e;
                         type := release_type |}]))%res
  end.

(** [parse_page] from the assertion on [entries_simplified] on. *)
Definition parse_page_simplified (urls : list (option string))
  (entries_simplified : list Simplified) : result (list Entry) :=
  (Res.assert (0 <? len entries_simplified) "Entries not simplified." ;;
   results <- append_results 0 urls entries_simplified [] ;;
   Res.assert (len urls =? len entries_simplified)
     "URL list and track info do not match!" ;;
   Res.assert (0 <? len results) "No results found." ;;
   Ok results)%res.

(** [parse_page] from the assertion on [urls] on. *)
Definition parse_page_urls (list_items : Page) (urls : list (option string))
  : result (list Entry) :=
  (Res.assert (0 <? len urls) "No URLs found!" ;;
   entries_simplified <- simplify_entries list_items ;;
   parse_page_simplified urls entries_simplified)%res.

(** [parse_page], on the entry nodes of the page at [page_path]. *)
Definition parse_page (list_items : Page) : result (list Entry) :=
  (Res.assert (0 <? len list_items) "No entries found." ;;
   urls <- Res.comprehension item_url list_items ;;
   parse_page_urls list_items urls)%res.

(** The loop of [get_entries], with [results] as it is before the
    iteration. *)
Fixpoint extend_entries (pages : list Page) (results : list Entry)
  : result (list Entry) :=
  match pages with
  | [] => Ok results
  | page :: pages' =>
      (list_entries <- parse_page page ;;
       extend_entries pages' (results ++ list_entries))%res
  end.

(** [get_entries], on the pages of the directory [pages_path]. *)
Definition get_entries (pages : list Page) : result (list Entry) :=
  (Res.assert (0 <? len pages) "No pages found." ;;
   extend_entries pages [])%res.

(** ** The script *)

(** The loop over [list_entries], with [to_be_added] as it is before the
    iteration. *)
Fixpoint fetch_uris (list_entries : list Entry) (to_be_added : list string)
  : M (list string) :=
  match list_entries with
  | [] => Eff.ret to_be_added
  | list_entry :: rest =>
      let artist_name := artist list_entry in
      let title := title list_entry in
      let type := type list_entry in
      (if (type =? "album")%string then
         (album_items <- get_tracks_from_album artist_name title
                           default_similarity_threshold ;;
          Eff.emit (Sleep 0.25%float) ;;
          fetch_uris rest (to_be_added ++ album_items))
       else
         (item <- get_track artist_name title default_similarity_threshold ;;
          Eff.emit (Sleep 0.25%float) ;;
          fetch_uris rest (to_be_added ++ [item])))%eff
  end.

(** The last steps of the script: create the playlist, add the tracks. *)
Definition publish (playlist_name : string) (to_be_added : list string)
  : M unit :=
  (playlist <- create_playlist playlist_name default_description ;;
   add_tracks_to_playlist playlist to_be_added)%eff.

(** The script under [if __name__ == "__main__"], on the pages of
    [./pages/]. *)
Definition main (pages : list Page) : M unit :=
  (add_to_existing <- Eff.input "Add to existing playlist? (y/n)" ;;
   let add_to_existing := lower add_to_existing in
   playlist_name <-
     (if (add_to_existing =? "y")%string then
        Eff.input "Please enter the ID of the playlist you wish to add to: "
      else
        Eff.input "Please enter a name for the playlist: ") ;;
   list_entries <- Eff.lift (get_entries pages) ;;
   to_be_added <- fetch_uris list_entries [] ;;
   publish playlist_name to_be_added)%eff.

End Program.

(** ** Definitions used in the statements *)

(** The entry that a row of a page stands for: the texts of its artist
    and album anchors, and the type read off the [href] of the album
    anchor. *)
Definition row_entry (item : option Tag) (r : Entry) : Prop :=
  exists tag al ar u,
    item = Some tag /\
    list_album tag = Some al /\
    list_artist tag = Some ar /\
    href al = Some u /\
    r = {| artist := text ar;
           title := text al;
           type := if contains "/release/single/" u then "track"
                   else "album" |}.

(** The URL and the simplified entry of a row. *)
Definition row_parts (item : option Tag) (ue : option string * Simplified)
  : Prop :=
  exists tag al ar,
    item = Some tag /\
    list_album tag = Some al /\
    list_artist tag = Some ar /\
    fst ue = href al /\
    snd ue = {| s_artist := text ar; s_title := text al |}.

(** The entry made of a URL and an element of [entries_simplified]. *)
Definition zipped_entry (ue : option string * Simplified) (r : Entry) : Prop :=
  exists u,
    fst ue = Some u /\
    r = {| artist := s_artist (snd ue);
           title := s_title (snd ue);
           type := if contains "/release/single/" u then "track"
                   else "album" |}.

(** The number of chunks of a list of [L] elements for a size [n]. *)
Definition chunk_count (L n : Z) : nat := Z.to_nat ((L + n - 1) / n).

(** The batches that [add_tracks_to_playlist] is shown to send. *)
Definition batches_of (tracks : list string) : list (list string) :=
  if 99 <=? len tracks
  then windows tracks 99 (chunk_count (len tracks) 99)
  else [tracks].

(** The state [s] after the calls [evs] were made, stdin untouched. *)
Definition after (s : state) (evs : list event) : state :=
  {| stdin := stdin s; trace := trace s ++ evs |}.

(** The query that both searches send. *)
Definition query_of (artist_name title : string) : string :=
  (artist_name ++ " " ++ title)%string.

(** ** Example inputs *)

(** A row with both anchors; [single] chooses the kind of its URL. *)
Definition example_row (a t : string) (single : bool) : option Tag :=
  Some {| list_album :=
            Some {| href := Some (if single
                                  then "/release/single/" ++ a ++ "/" ++ t
                                  else "/release/album/" ++ a ++ "/" ++ t)%string;
                    text := t |};
          list_artist := Some {| href := None; text := a |} |}.

(** A page of three rows: two albums and a single. *)
Definition example_page : Page :=
  [ example_row "Low" "Things We Lost in the Fire" false;
    example_row "Can" "Tago Mago" false;
    example_row "Wire" "Outdoor Miner" true ].

(** A row whose artist anchor is missing. *)
Definition example_row_no_artist : option Tag :=
  Some {| list_album := Some {| href := Some "/release/album/x/y";
                                text := "y" |};
          list_artist := None |}.

(** A catalog of one track and one album of three tracks. *)
Definition example_track : Track :=
  {| track_uri := "spotify:track:om";
     track_name := "Outdoor Miner";
     track_artists := ["Wire"] |}.

Definition example_album : Album :=
  {| album_uri := "spotify:album:tm";
     album_name := "Tago Mago";
     album_artists := ["Can"] |}.

Definition example_album_tracks : list Track :=
  [ {| track_uri := "spotify:track:tm1"; track_name := "Paperhouse";
       track_artists := ["Can"] |};
    {| track_uri := "spotify:track:tm2"; track_name := "Mushroom";
       track_artists := ["Can"] |};
    {| track_uri := "spotify:track:tm3"; track_name := "Oh Yeah";
       track_artists := ["Can"] |} ].

Definition example_spotify : Spotify :=
  {| search_album q :=
       if (q =? "Can Tago Mago")%string then [example_album] else [];
     search_track q :=
       if (q =? "Wire Outdoor Miner")%string then [example_track] else [];
     album_tracks_items album_id :=
       if (album_id =? "spotify:album:tm")%string then example_album_tracks
       else [];
     user_playlist_create_id user name description :=
       ("playlist:" ++ name)%string |}.

(** A scorer that gives 1.0 to equal strings, as [ratio()] does, and 0.0
    to all others. *)
Definition exact_ratio (a b : string) : float :=
  if (a =? b)%string then 1.0%float else 0.0%float.

(** A scorer that gives 0.99 when its first string is ["Wire"] and 0.80
    otherwise. *)
Definition ratio_99_80 (a b : string) : float :=
  if (a =? "Wire")%string then 0.99%float else 0.80%float.

(** A scorer for which nothing resembles anything. *)
Definition zero_ratio (a b : string) : float := 0.0%float.

(** [n] distinct track URIs. *)
Definition example_uris (n : nat) : list string :=
  map (fun i =>
         ("spotify:track:" ++ NilEmpty.string_of_uint (Nat.to_uint i))%string)
      (seq 0 n).

(** A page of an album and a single that the example catalog has. *)
Definition example_page_known : Page :=
  [ example_row "Can" "Tago Mago" false;
    example_row "Wire" "Outdoor Miner" true ].

(** A single that the example catalog does not have. *)
Definition example_unknown_single : Entry :=
  {| artist := "Nobody"; title := "Nothing"; type := "track" |}.

(** The state before the program has done anything, with nothing to read
    on stdin. *)
Definition initial_state : state := {| stdin := []; trace := [] |}.

(** The state before the program has done anything, for a user who asks
    for an existing playlist and gives its id. *)
Definition example_stdin_existing : state :=
  {| stdin := ["y"; "37i9dQZF1DX"]; trace := [] |}.

(** ** The rest of the program, and definitions for further statements *)

(** [SpotifyAuthManager.get_n_most_popular_from_album]: its body is
    [pass]; it makes no call and returns [None]. *)
Definition get_n_most_popular_from_album (album_id : string) (count : Z)
  : M unit :=
  Eff.ret tt.

(** A row that [parse_page] cannot read: a [None], or a node without its
    album anchor or without its artist anchor. *)
Definition incomplete_row (item : option Tag) : bool :=
  match item with
  | None => true
  | Some tag =>
      match list_album tag, list_artist tag with
      | Some _, Some _ => false
      | _, _ => true
      end
  end.

(** A row whose album anchor has no [href]. *)
Definition href_missing (item : option Tag) : bool :=
  match item with
  | Some {| list_album := Some {| href := None |} |} => true
  | _ => false
  end.

(** [m] returns [r] and makes the calls [evs], in every state, and reads
    nothing from stdin. *)
Definition logs {A : Type} (m : M A) (r : result A) (evs : list event)
  : Prop :=
  forall s, m s = (r, after s evs).

Definition is_playlist_call (e : event) : bool :=
  match e with
  | UserPlaylistCreate _ _ _ | PlaylistAddItems _ _ => true
  | _ => false
  end.

Definition is_create (e : event) : bool :=
  match e with
  | UserPlaylistCreate _ _ _ => true
  | _ => false
  end.

Definition is_search (e : event) : bool :=
  match e with
  | Search _ _ _ => true
  | _ => false
  end.

Definition is_sleep (e : event) : bool :=
  match e with
  | Sleep _ => true
  | _ => false
  end.

(** The entries that the script resolves with [get_track]: all those whose
    type is not ["album"]. *)
Definition is_single (e : Entry) : bool := negb (type e =? "album")%string.

(** The second prompt of the script after the answer [ans] to the first. *)
Definition second_prompt (ans : string) : string :=
  if ((ans =? "y") || (ans =? "Y"))%string
  then "Please enter the ID of the playlist you wish to add to: "
  else "Please enter a name for the playlist: ".

(** A row whose album anchor has no [href]. *)
Definition example_row_no_href : option Tag :=
  Some {| list_album := Some {| href := None; text := "y" |};
          list_artist := Some {| href := None; text := "x" |} |}.

(** A catalog whose first track and first album list no artist. *)
Definition example_spotify_no_artists : Spotify :=
  {| search_album q :=
       [{| album_uri := "spotify:album:x"; album_name := "X";
           album_artists := [] |}];
     search_track q :=
       [{| track_uri := "spotify:track:x"; track_name := "X";
           track_artists := [] |}];
     album_tracks_items album_id := example_album_tracks;
     user_playlist_create_id user name description :=
       ("playlist:" ++ name)%string |}.

(** The example catalog with a second hit behind every first one. *)
Definition example_spotify_two_hits : Spotify :=
  {| search_album q := search_album example_spotify q ++ [example_album];
     search_track q := search_track example_spotify q ++ [example_track];
     album_tracks_items := album_tracks_items example_spotify;
     user_playlist_create_id := user_playlist_create_id example_spotify |}.

(** The calls of one resolution: one search, no sleep, no playlist call. *)
Definition resolution_calls (evs : list event) : Prop :=
  Forall (fun e => is_playlist_call e = false) evs /\
  List.length (filter is_search evs) = 1%nat /\
  List.length (filter is_sleep evs) = 0%nat.

(** The script after its two prompts. *)
Definition script_body (spotify : Spotify) (ratio : string -> string -> float)
  (USER_ID : string) (pages : list Page) (playlist_name : string) : M unit :=
  (list_entries <- Eff.lift (get_entries pages) ;;
   to_be_added <- fetch_uris spotify ratio list_entries [] ;;
   publish spotify USER_ID playlist_name to_be_added)%eff.

(** An event that is not an append call to another playlist than
    [playlist_id]. *)
Definition targets (playlist_id : string) (e : event) : Prop :=
  match e with
  | PlaylistAddItems p _ => p = playlist_id
  | _ => True
  end.

(** A catalog whose first track lists no artist, with the album of the
    example catalog. *)
Definition example_spotify_bad_track : Spotify :=
  {| search_album := search_album example_spotify;
     search_track := search_track example_spotify_no_artists;
     album_tracks_items := album_tracks_items example_spotify;
     user_playlist_create_id := user_playlist_create_id example_spotify |}.

(** A scorer with the values of [ratio()] on the strings [tide] and [diet]:
    from [tide] to [diet] one block matches, [t], which gives 2 * 1 / 8;
    from [diet] to [tide] two blocks match, [d] and then [e], which gives
    2 * 2 / 8; equal strings give 1.0.  It is 0.0 elsewhere. *)
Definition ratio_tide_diet (a b : string) : float :=
  if (a =? b)%string then 1.0%float
  else if ((a =? "tide") && (b =? "diet"))%string then 0.25%float
  else if ((a =? "diet") && (b =? "tide"))%string then 0.5%float
  else 0.0%float.

(** A catalog whose first album and first track are both named [tide]. *)
Definition example_spotify_tide : Spotify :=
  {| search_album q :=
       [{| album_uri := "spotify:album:tide"; album_name := "tide";
           album_artists := ["Can"] |}];
     search_track q :=
       [{| track_uri := "spotify:track:tide"; track_name := "tide";
           track_artists := ["Can"] |}];
     album_tracks_items album_id := example_album_tracks;
     user_playlist_create_id user name description :=
       ("playlist:" ++ name)%string |}.

(** * Properties *)

(** ** Slices and ranges *)

Section ListFacts.

Context {A : Type}.

Lemma firstn_plus (a b : nat) (l : list A) :
  firstn (a + b) l = firstn a l ++ firstn b (skipn a l).
Proof.
  revert l. induction a as [|a IH]; intros l; [reflexivity|].
  destruct l as [|x l]; simpl.
  - now rewrite firstn_nil.
  - now rewrite IH.
Qed.

(** A slice [l[x:x+n]] with [0 <= x] and [0 < n] takes [n] elements after
    dropping [x]. *)
Lemma py_slice_window (l : list A) (x n : Z) :
  0 <= x -> 0 < n ->
  py_slice l x (x + n) = firstn (Z.to_nat n) (skipn (Z.to_nat x) l).
Proof.
  intros Hx Hn. unfold py_slice, slice_index, len.
  destruct (x <? 0) eqn:E1; [lia|].
  destruct (x + n <? 0) eqn:E2; [lia|].
  set (L := Z.of_nat (List.length l)).
  destruct (Z.le_gt_cases x L) as [Hle|Hgt].
  - rewrite (Z.min_l x L) by lia.
    destruct (Z.le_gt_cases (x + n) L) as [Hle2|Hgt2].
    + rewrite Z.min_l by lia. f_equal. lia.
    + rewrite Z.min_r by lia.
      rewrite !firstn_all2; try reflexivity;
        rewrite length_skipn; subst L; lia.
  - rewrite !Z.min_r by lia. rewrite Z.sub_diag. simpl.
    rewrite skipn_all2 by (subst L; lia). now rewrite firstn_nil.
Qed.

Lemma windows_S (l : list A) (n k : nat) :
  windows l n (S k) = windows l n k ++ [firstn n (skipn (k * n) l)].
Proof. unfold windows. rewrite seq_S, map_app. reflexivity. Qed.

Lemma concat_windows (l : list A) (n k : nat) :
  List.concat (windows l n k) = firstn (k * n) l.
Proof.
  induction k as [|k IH].
  - reflexivity.
  - rewrite windows_S, concat_app, IH. simpl. rewrite app_nil_r.
    rewrite <- firstn_plus. f_equal. lia.
Qed.

Lemma length_windows (l : list A) (n k : nat) :
  List.length (windows l n k) = k.
Proof. unfold windows. now rewrite length_map, length_seq. Qed.

Lemma nth_error_windows (l : list A) (n k i : nat) :
  (i < k)%nat ->
  nth_error (windows l n k) i = Some (firstn n (skipn (i * n) l)).
Proof.
  intros Hi. unfold windows.
  rewrite nth_error_map, nth_error_seq.
  destruct (Nat.ltb_spec i k); [reflexivity | lia].
Qed.

Lemma windows_cover (l : list A) (n k : nat) :
  (List.length l <= k * n)%nat -> List.concat (windows l n k) = l.
Proof. intros H. rewrite concat_windows. now apply firstn_all2. Qed.

Lemma windows_bounded (l : list A) (n k : nat) :
  Forall (fun c => (List.length c <= n)%nat) (windows l n k).
Proof.
  unfold windows. apply Forall_map, Forall_forall. intros i _.
  rewrite length_firstn. apply Nat.le_min_l.
Qed.

(** A window that ends inside the list is full. *)
Lemma windows_full (l : list A) (n k i : nat) (c : list A) :
  nth_error (windows l n k) i = Some c ->
  (i * n + n <= List.length l)%nat ->
  List.length c = n.
Proof.
  intros Hi Hin.
  assert (Hk : (i < k)%nat).
  { rewrite <- (length_windows l n k). apply nth_error_Some. congruence. }
  rewrite nth_error_windows in Hi by exact Hk. injection Hi as <-.
  rewrite length_firstn, length_skipn. lia.
Qed.

End ListFacts.

(** [range(0, L, n)] with [1 <= n] counts [ceil(L / n)] multiples of [n]. *)
Lemma range_length_ceil (L n : Z) :
  0 <= L -> 1 <= n -> range_length 0 L n = (L + n - 1) / n.
Proof.
  intros HL Hn. unfold range_length.
  destruct (0 <? n) eqn:E; [|lia].
  destruct (0 <? L) eqn:E'.
  - replace (L + n - 1) with (L - 0 - 1 + 1 * n) by lia.
    rewrite Z.div_add by lia. reflexivity.
  - assert (L = 0) by lia. subst L.
    symmetry. apply Z.div_small. lia.
Qed.

(** [(L + n - 1) / n] is the ceiling of [L / n]: the least [k] with
    [L <= k * n]. *)
Lemma ceil_bounds (L n : Z) :
  1 <= n ->
  L <= (L + n - 1) / n * n < L + n.
Proof.
  intros Hn.
  pose proof (Z.div_mod (L + n - 1) n ltac:(lia)) as Hdm.
  pose proof (Z.mod_pos_bound (L + n - 1) n ltac:(lia)) as Hb.
  nia.
Qed.

(** For [1 <= n], [divide_chunks] returns the windows of width [n]. *)
Lemma divide_chunks_windows {A : Type} (l : list A) (n : Z) :
  1 <= n ->
  divide_chunks l n =
  Ok (windows l (Z.to_nat n) (Z.to_nat ((len l + n - 1) / n))).
Proof.
  intros Hn. unfold divide_chunks, py_range.
  destruct (n =? 0) eqn:E; [lia|]. simpl.
  rewrite range_length_ceil by (unfold len; lia).
  f_equal. unfold windows. rewrite map_map.
  apply map_ext. intros i. simpl.
  rewrite py_slice_window by lia. do 2 f_equal. lia.
Qed.

(** ** The chunker *)

(** C5: for every list [l] and every [n >= 1], [divide_chunks l n] returns
    chunks whose concatenation, in order, is exactly [l]; every chunk has
    at most [n] elements; the number of chunks is [ceil(len(l) / n)], that
    is [(len l + n - 1) / n], the least [k] with [len l <= k * n]; and
    every chunk but the last has exactly [n] elements. *)
Theorem divide_chunks_partition {A : Type} (l : list A) (n : Z) :
  1 <= n ->
  exists chunks,
    divide_chunks l n = Ok chunks /\
    List.concat chunks = l /\
    Forall (fun c => len c <= n) chunks /\
    len chunks = (len l + n - 1) / n /\
    len l <= len chunks * n < len l + n /\
    (forall i c, nth_error chunks i = Some c ->
                 (S i < List.length chunks)%nat -> len c = n).
Proof.
  intros Hn.
  pose proof (ceil_bounds (len l) Hn) as Hc.
  assert (Hk : 0 <= (len l + n - 1) / n).
  { apply Z.div_pos; unfold len; lia. }
  exists (windows l (Z.to_nat n) (chunk_count (len l) n)).
  unfold chunk_count, len in *.
  set (k := (Z.of_nat (List.length l) + n - 1) / n) in *.
  rewrite length_windows.
  split; [now apply divide_chunks_windows|].
  split.
  { apply windows_cover. rewrite <- Z2Nat.inj_mul by lia. lia. }
  split.
  { eapply Forall_impl; [|apply windows_bounded]. simpl. intros c Hle. lia. }
  split; [lia|].
  split; [rewrite Z2Nat.id by lia; exact Hc|].
  intros i c Hi Hlt.
  apply windows_full in Hi; [lia|].
  assert (Hin : (Z.of_nat i + 1) * n <= (k - 1) * n) by nia.
  assert (Hmul : Z.of_nat (i * Z.to_nat n) = Z.of_nat i * n)
    by (rewrite Nat2Z.inj_mul; lia).
  lia.
Qed.

(** For [n = 0] the range raises; for [n < 0] the range is empty and
    [divide_chunks] returns no chunk at all. *)
Lemma divide_chunks_negative {A : Type} (l : list A) (n : Z) :
  n < 0 -> divide_chunks l n = Ok [].
Proof.
  intros Hn. unfold divide_chunks, py_range, range_length, len.
  destruct (n =? 0) eqn:E; [lia|].
  destruct (0 <? n) eqn:E1; [lia|].
  destruct (Z.ltb_spec (Z.of_nat (List.length l)) 0); [lia|].
  reflexivity.
Qed.

(** C3, as the program has it: [divide_chunks l 0] raises [ValueError],
    and for [n < 0] [divide_chunks l n] raises nothing and returns the
    empty list of chunks. *)
Theorem divide_chunks_nonpositive {A : Type} (l : list A) (n : Z) :
  n <= 0 ->
  (n = 0 -> divide_chunks l n = Raise ValueError) /\
  (n < 0 -> divide_chunks l n = Ok []).
Proof.
  intros _. split.
  - intros ->. reflexivity.
  - apply divide_chunks_negative.
Qed.

(** C3 fails as stated: a negative size is not an error, and the three
    elements of the list are in no chunk of the result. *)
Lemma divide_chunks_nonpositive_not_error :
  ~ (forall (l : list Z) (n : Z), n <= 0 -> raises (divide_chunks l n)).
Proof.
  intros H. destruct (H [1; 2; 3] (-1) ltac:(lia)) as [e He].
  vm_compute in He. discriminate He.
Qed.

Lemma divide_chunks_nonpositive_witness :
  -1 <= 0 /\
  divide_chunks [1; 2; 3] 0 = Raise ValueError /\
  divide_chunks [1; 2; 3] (-1) = Ok [].
Proof.
  split; [lia|].
  split.
  - apply (divide_chunks_nonpositive [1; 2; 3] (n := 0)); lia.
  - apply (divide_chunks_nonpositive [1; 2; 3] (n := -1)); lia.
Defined.

Lemma divide_chunks_partition_witness :
  exists chunks,
    divide_chunks [1; 2; 3; 4; 5] 2 = Ok chunks /\
    List.concat chunks = [1; 2; 3; 4; 5] /\
    Forall (fun c => len c <= 2) chunks /\
    len chunks = (len [1; 2; 3; 4; 5] + 2 - 1) / 2 /\
    len [1; 2; 3; 4; 5] <= len chunks * 2 < len [1; 2; 3; 4; 5] + 2 /\
    (forall i c, nth_error chunks i = Some c ->
                 (S i < List.length chunks)%nat -> len c = 2).
Proof. apply (divide_chunks_partition [1; 2; 3; 4; 5] (n := 2)). lia. Defined.

Example divide_chunks_5_2 :
  divide_chunks [1; 2; 3; 4; 5] 2 = Ok [[1; 2]; [3; 4]; [5]].
Proof. reflexivity. Qed.

(** ** The page parser *)

Lemma res_bind_ok {A B : Type} (r : result A) (k : A -> result B) (b : B) :
  Res.bind r k = Ok b -> exists a, r = Ok a /\ k a = Ok b.
Proof. destruct r as [a|e]; simpl; [eauto | discriminate]. Qed.

Lemma res_assert_ok (cond : bool) (msg : string) (u : unit) :
  Res.assert cond msg = Ok u -> cond = true.
Proof. destruct cond; simpl; [reflexivity | discriminate]. Qed.

(** Inverts the hypotheses [_ <- _ ;; _ = Ok _]. *)
Ltac res_inv :=
  repeat match goal with
    | H : Res.bind _ _ = Ok _ |- _ =>
        let a := fresh "a" in
        let Ha := fresh "Ha" in
        apply res_bind_ok in H; destruct H as [a [Ha H]]
    | H : Res.assert _ _ = Ok _ |- _ => apply res_assert_ok in H
    | H : Ok _ = Ok _ |- _ => injection H as H
    end.

Lemma nth_error_skipn_cons {A : Type} (l : list A) (i : nat) (x : A) :
  nth_error l i = Some x -> skipn i l = x :: skipn (S i) l.
Proof.
  revert l. induction i as [|i IH]; intros [|y l] H; try discriminate.
  - injection H as ->. reflexivity.
  - simpl in H. apply IH in H. exact H.
Qed.

Lemma Forall2_compose {A B C : Type} (P : A -> B -> Prop) (Q : B -> C -> Prop)
  (R : A -> C -> Prop) :
  (forall a b c, P a b -> Q b c -> R a c) ->
  forall la lb lc, Forall2 P la lb -> Forall2 Q lb lc -> Forall2 R la lc.
Proof.
  intros HR la lb lc HP. revert lc.
  induction HP as [|a b la lb Hab _ IH]; intros lc HQ; inversion HQ; subst.
  - constructor.
  - constructor; eauto.
Qed.

(** When the loop of [parse_page] ends, it has appended one entry per URL,
    made of the URL and of the element of [entries_simplified] at the same
    index. *)
Lemma append_results_ok (urls : list (option string)) :
  forall (i : nat) (es : list Simplified) (acc res : list Entry),
    append_results i urls es acc = Ok res ->
    exists rows,
      res = acc ++ rows /\
      Forall2 zipped_entry (combine urls (skipn i es)) rows /\
      (List.length urls <= List.length (skipn i es))%nat.
Proof.
  induction urls as [|url urls IH]; intros i es acc res H; simpl in H.
  - injection H as <-. exists []. rewrite app_nil_r. simpl.
    repeat split; [constructor | lia].
  - res_inv. rename a into rt, a0 into e.
    destruct url as [u|]; [|discriminate]. simpl in Ha. injection Ha as <-.
    unfold item_at in Ha0.
    destruct (nth_error es i) as [e'|] eqn:Hnth; [|discriminate].
    injection Ha0 as ->.
    apply IH in H. destruct H as [rows [-> [HF Hlen]]].
    rewrite (nth_error_skipn_cons _ _ Hnth).
    eexists (_ :: rows). split; [now rewrite <- app_assoc|].
    split; [|cbn [List.length]; lia].
    cbn [combine]. constructor; [|exact HF].
    exists u. split; reflexivity.
Qed.

Lemma urls_and_simplified (list_items : Page) :
  forall urls es,
    Res.comprehension item_url list_items = Ok urls ->
    simplify_entries list_items = Ok es ->
    Forall2 row_parts list_items (combine urls es).
Proof.
  induction list_items as [|item rest IH]; intros urls es Hu He; simpl in *.
  - injection Hu as <-. constructor.
  - res_inv. subst urls.
    destruct item as [tag|]; [|discriminate].
    simpl in Ha. destruct (list_album tag) as [al|] eqn:Hal; [|discriminate].
    injection Ha as <-.
    res_inv. subst es.
    unfold simplify in Ha. rewrite Hal in Ha.
    destruct (list_artist tag) as [ar|] eqn:Har; [|discriminate].
    injection Ha as <-.
    simpl. constructor; [|now apply IH].
    exists tag, al, ar. repeat split; assumption.
Qed.

(** A page that parses gives one entry per row, in the order of the rows. *)
Lemma parse_page_ok (list_items : Page) (results : list Entry) :
  parse_page list_items = Ok results ->
  Forall2 row_entry list_items results.
Proof.
  unfold parse_page, parse_page_urls, parse_page_simplified. intros H.
  res_inv. subst.
  apply append_results_ok in Ha4. destruct Ha4 as [rows [-> [HF _]]].
  simpl in *.
  apply Forall2_compose with (P := row_parts) (Q := zipped_entry)
                             (lb := combine a0 a2);
    [| now apply urls_and_simplified | exact HF].
  intros item [url e] r (tag & al & ar & -> & Hal & Har & Hu & He) (u & Hu' & ->).
  simpl in *. subst. exists tag, al, ar, u. repeat split; assumption.
Qed.

(** C4: [parse_page] raises, and so returns no list, when the page has no
    entry node, when no URL was extracted, when no (artist, title) pair was
    extracted, and when the number of URLs differs from the number of
    pairs; and for every page it either raises or returns one entry for
    every row of the page, in the order of the rows. *)
Theorem parse_page_all_or_error :
  parse_page [] = Raise (AssertionError "No entries found.") /\
  (forall list_items,
      parse_page_urls list_items [] =
      Raise (AssertionError "No URLs found!")) /\
  (forall urls,
      parse_page_simplified urls [] =
      Raise (AssertionError "Entries not simplified.")) /\
  (forall urls entries_simplified,
      len urls <> len entries_simplified ->
      raises (parse_page_simplified urls entries_simplified)) /\
  (forall list_items,
      raises (parse_page list_items) \/
      exists results,
        parse_page list_items = Ok results /\
        Forall2 row_entry list_items results).
Proof.
  split; [reflexivity|].
  split; [reflexivity|].
  split; [reflexivity|].
  split.
  - intros urls es Hne. unfold parse_page_simplified.
    destruct (0 <? len es); simpl; [|eexists; reflexivity].
    destruct (append_results 0 urls es []) as [results|e]; simpl;
      [|eexists; reflexivity].
    destruct (Z.eqb_spec (len urls) (len es)) as [Heq|_]; [contradiction|].
    simpl. eexists; reflexivity.
  - intros list_items.
    destruct (parse_page list_items) as [results|e] eqn:H.
    + right. exists results. split; [reflexivity|].
      now apply parse_page_ok.
    + left. exists e. reflexivity.
Qed.

Lemma parse_page_all_or_error_witness :
  len [Some "/release/album/a/b"; Some "/release/album/c/d"] <>
  len [{| s_artist := "a"; s_title := "b" |}] /\
  raises (parse_page_simplified
            [Some "/release/album/a/b"; Some "/release/album/c/d"]
            [{| s_artist := "a"; s_title := "b" |}]).
Proof.
  split; [vm_compute; discriminate|].
  apply parse_page_all_or_error. vm_compute. discriminate.
Defined.

(** A page of two albums and a single gives three entries with these
    types, in the order of the page. *)
Example parse_page_example :
  parse_page example_page =
  Ok [ {| artist := "Low"; title := "Things We Lost in the Fire";
          type := "album" |};
       {| artist := "Can"; title := "Tago Mago"; type := "album" |};
       {| artist := "Wire"; title := "Outdoor Miner"; type := "track" |} ].
Proof. reflexivity. Qed.

(** A row without its artist label makes the whole page fail. *)
Example parse_page_missing_artist :
  parse_page (example_page ++ [example_row_no_artist]) = Raise AttributeError.
Proof. reflexivity. Qed.

(** More URLs than pairs: the loop raises before the assertion on the two
    lengths is reached. *)
Example parse_page_simplified_more_urls :
  parse_page_simplified
    [Some "/release/album/a/b"; Some "/release/album/c/d"]
    [{| s_artist := "a"; s_title := "b" |}] = Raise IndexError.
Proof. reflexivity. Qed.

(** Fewer URLs than pairs: the assertion on the two lengths fails. *)
Example parse_page_simplified_fewer_urls :
  parse_page_simplified
    [Some "/release/album/a/b"]
    [{| s_artist := "a"; s_title := "b" |};
     {| s_artist := "c"; s_title := "d" |}] =
  Raise (AssertionError "URL list and track info do not match!").
Proof. reflexivity. Qed.

(** ** Appending to a playlist *)

Lemma after_nil (s : state) : after s [] = s.
Proof. destruct s. unfold after. simpl. now rewrite app_nil_r. Qed.

Lemma after_after (s : state) (e1 e2 : list event) :
  after (after s e1) e2 = after s (e1 ++ e2).
Proof. unfold after. simpl. now rewrite app_assoc. Qed.

Lemma emit_after (e : event) (s : state) :
  Eff.emit e s = (Ok tt, after s [e]).
Proof. reflexivity. Qed.

(** The loop over the chunks makes one call per chunk, in order. *)
Lemma for_each_add_items (playlist_id : string) (chunks : list (list string)) :
  forall s,
    Eff.for_each (fun chunk => playlist_add_items playlist_id chunk) chunks s =
    (Ok tt, after s (map (PlaylistAddItems playlist_id) chunks)).
Proof.
  induction chunks as [|c chunks IH]; intros s; simpl.
  - unfold Eff.ret. now rewrite after_nil.
  - unfold Eff.bind, playlist_add_items. rewrite emit_after, IH, after_after.
    reflexivity.
Qed.

(** The calls of [add_tracks_to_playlist]: one per batch, in order. *)
Lemma add_tracks_run (playlist_id : string) (tracks : list string)
  (s : state) :
  add_tracks_to_playlist playlist_id tracks s =
  (Ok tt, after s (map (PlaylistAddItems playlist_id) (batches_of tracks))).
Proof.
  unfold add_tracks_to_playlist, batches_of.
  destruct (99 <=? len tracks); [|reflexivity].
  unfold Eff.bind, Eff.lift, divide_chunks_default_n.
  rewrite divide_chunks_windows by lia.
  apply for_each_add_items.
Qed.

Lemma chunk_count_covers (L n : Z) :
  0 <= L -> 1 <= n -> (Z.to_nat L <= chunk_count L n * Z.to_nat n)%nat.
Proof.
  intros HL Hn. unfold chunk_count.
  pose proof (ceil_bounds L Hn) as Hc.
  assert (0 <= (L + n - 1) / n) by (apply Z.div_pos; lia).
  rewrite <- Z2Nat.inj_mul by lia. lia.
Qed.

Lemma batches_of_concat (tracks : list string) :
  List.concat (batches_of tracks) = tracks.
Proof.
  unfold batches_of. destruct (99 <=? len tracks).
  - apply windows_cover.
    pose proof (@chunk_count_covers (len tracks) 99) as H.
    unfold len in *. rewrite Nat2Z.id in H.
    change (Z.to_nat 99) with 99%nat in H. apply H; lia.
  - simpl. apply app_nil_r.
Qed.

Lemma batches_of_bounded (tracks : list string) :
  Forall (fun b => len b <= 99) (batches_of tracks).
Proof.
  unfold batches_of. destruct (Z.leb_spec 99 (len tracks)).
  - eapply Forall_impl; [|apply windows_bounded].
    simpl. unfold len. intros c Hle. lia.
  - constructor; [lia | constructor].
Qed.

(** C6: [add_tracks_to_playlist] makes one [playlist_add_items] call per
    batch, in order, and nothing else; the batches, concatenated in order,
    are the tracks, and none has more than 99 elements.  For 150 tracks
    there are exactly two batches, of 99 and of 51 tracks. *)
Theorem add_tracks_batches (playlist_id : string) (tracks : list string)
  (s : state) :
  exists batches,
    add_tracks_to_playlist playlist_id tracks s =
    (Ok tt, after s (map (PlaylistAddItems playlist_id) batches)) /\
    List.concat batches = tracks /\
    Forall (fun b => len b <= 99) batches /\
    (len tracks = 150 ->
     exists b1 b2, batches = [b1; b2] /\ len b1 = 99 /\ len b2 = 51).
Proof.
  exists (batches_of tracks).
  split; [apply add_tracks_run|].
  split; [apply batches_of_concat|].
  split; [apply batches_of_bounded|].
  intros H150. unfold batches_of. rewrite H150.
  change (99 <=? 150) with true. cbv iota.
  change (chunk_count 150 99) with 2%nat.
  exists (firstn 99 (skipn 0 tracks)), (firstn 99 (skipn 99 tracks)).
  split; [reflexivity|].
  unfold len in *. rewrite !length_firstn, !length_skipn. lia.
Qed.

(** C10: a list of fewer than 99 tracks, the empty one included, is sent
    whole in one [playlist_add_items] call; from 99 tracks on the calls
    carry the chunks of [divide_chunks], and a list of exactly 99 tracks is
    one chunk, sent in one call. *)
Theorem add_tracks_threshold (playlist_id : string) (tracks : list string)
  (s : state) :
  (len tracks < 99 ->
   add_tracks_to_playlist playlist_id tracks s =
   (Ok tt, after s [PlaylistAddItems playlist_id tracks])) /\
  add_tracks_to_playlist playlist_id [] s =
  (Ok tt, after s [PlaylistAddItems playlist_id []]) /\
  (99 <= len tracks ->
   exists chunks,
     divide_chunks tracks 99 = Ok chunks /\
     add_tracks_to_playlist playlist_id tracks s =
     (Ok tt, after s (map (PlaylistAddItems playlist_id) chunks))) /\
  (len tracks = 99 ->
   divide_chunks tracks 99 = Ok [tracks] /\
   add_tracks_to_playlist playlist_id tracks s =
   (Ok tt, after s [PlaylistAddItems playlist_id tracks])).
Proof.
  pose proof (add_tracks_run playlist_id tracks s) as Hrun.
  pose proof (@divide_chunks_windows _ tracks 99 ltac:(lia)) as Hdiv.
  fold (chunk_count (len tracks) 99) in Hdiv.
  change (Z.to_nat 99) with 99%nat in Hdiv.
  unfold batches_of in Hrun.
  split.
  { intros Hshort. destruct (Z.leb_spec 99 (len tracks)); [lia|]. exact Hrun. }
  split; [reflexivity|].
  split.
  { intros Hlong. destruct (Z.leb_spec 99 (len tracks)); [|lia].
    eexists. split; [exact Hdiv | exact Hrun]. }
  intros H99. rewrite H99 in Hrun, Hdiv.
  change (99 <=? 99) with true in Hrun. cbv iota in Hrun.
  change (chunk_count 99 99) with 1%nat in Hrun, Hdiv.
  assert (Hone : windows tracks 99 1 = [tracks]).
  { unfold windows. cbn [seq map]. change (0 * 99)%nat with 0%nat.
    cbn [skipn]. f_equal. apply firstn_all2. unfold len in H99. lia. }
  rewrite Hone in Hrun, Hdiv. split; assumption.
Qed.

Lemma add_tracks_batches_witness :
  len (example_uris 150) = 150 /\
  exists b1 b2,
    add_tracks_to_playlist "pl" (example_uris 150) initial_state =
    (Ok tt, after initial_state
              [PlaylistAddItems "pl" b1; PlaylistAddItems "pl" b2]) /\
    (b1 ++ b2 = example_uris 150)%list /\
    len b1 = 99 /\ len b2 = 51.
Proof.
  split; [reflexivity|].
  destruct (add_tracks_batches "pl" (example_uris 150) initial_state)
    as (batches & Hrun & Hcat & _ & H150).
  destruct (H150 eq_refl) as (b1 & b2 & -> & H1 & H2).
  exists b1, b2. simpl in Hcat. rewrite app_nil_r in Hcat.
  repeat split; assumption.
Defined.

(** The two calls made for 150 tracks. *)
Example add_tracks_150 :
  add_tracks_to_playlist "pl" (example_uris 150) initial_state =
  (Ok tt, after initial_state
            [PlaylistAddItems "pl" (firstn 99 (example_uris 150));
             PlaylistAddItems "pl" (skipn 99 (example_uris 150))]).
Proof. vm_compute. reflexivity. Qed.

Lemma add_tracks_threshold_witness :
  len (example_uris 98) < 99 /\
  add_tracks_to_playlist "pl" (example_uris 98) initial_state =
  (Ok tt, after initial_state [PlaylistAddItems "pl" (example_uris 98)]) /\
  len (example_uris 99) = 99 /\
  divide_chunks (example_uris 99) 99 = Ok [example_uris 99] /\
  add_tracks_to_playlist "pl" (example_uris 99) initial_state =
  (Ok tt, after initial_state [PlaylistAddItems "pl" (example_uris 99)]) /\
  99 <= len (example_uris 100) /\
  exists chunks,
    divide_chunks (example_uris 100) 99 = Ok chunks /\
    add_tracks_to_playlist "pl" (example_uris 100) initial_state =
    (Ok tt, after initial_state (map (PlaylistAddItems "pl") chunks)).
Proof.
  split; [vm_compute; reflexivity|].
  split.
  { apply (proj1 (add_tracks_threshold "pl" (example_uris 98) initial_state)).
    vm_compute. reflexivity. }
  split; [reflexivity|].
  assert (H99 : len (example_uris 99) = 99) by reflexivity.
  destruct (add_tracks_threshold "pl" (example_uris 99) initial_state)
    as (_ & _ & _ & Heq).
  destruct (Heq H99) as [Hd Hrun].
  split; [exact Hd|]. split; [exact Hrun|].
  split; [vm_compute; discriminate|].
  apply (add_tracks_threshold "pl" (example_uris 100) initial_state).
  vm_compute. discriminate.
Defined.

(** The chunking path would make no call at all for an empty list. *)
Example divide_chunks_empty : divide_chunks (@nil string) 99 = Ok [].
Proof. reflexivity. Qed.

(** ** Comparisons of floats *)

Lemma SFcompare_Lt_Gt (a b : spec_float) :
  SFcompare a b = Some Lt -> SFcompare b a = Some Gt.
Proof.
  destruct a as [s1|s1| |s1 m1 e1], b as [s2|s2| |s2 m2 e2]; simpl;
    try discriminate;
    repeat match goal with s : bool |- _ => destruct s end;
    try discriminate; try reflexivity;
    rewrite (Z.compare_antisym e1 e2);
    destruct (e1 ?= e2); simpl; try discriminate; try reflexivity;
    change (Pos.compare_cont Eq m2 m1) with (Pos.compare m2 m1);
    change (Pos.compare_cont Eq m1 m2) with (Pos.compare m1 m2);
    rewrite (Pos.compare_antisym m1 m2);
    destruct (Pos.compare m1 m2); simpl; try discriminate; reflexivity.
Qed.

(** [x < y] excludes [x >= y]. *)
Lemma float_ltb_not_geb (x y : float) :
  (x <? y)%float = true -> (y <=? x)%float = false.
Proof.
  rewrite ltb_spec, leb_spec. unfold SFltb, SFleb.
  destruct (SFcompare (Prim2SF x) (Prim2SF y)) as [[ | | ]|] eqn:E;
    try discriminate.
  intros _. now rewrite (SFcompare_Lt_Gt _ _ E).
Qed.

(** [0 < t] excludes [t == 0.0]. *)
Lemma float_pos_neq_zero (t : float) :
  (0 <? t)%float = true -> (t =? 0)%float = false.
Proof.
  rewrite ltb_spec, eqb_spec. unfold SFltb, SFeqb.
  destruct (SFcompare (Prim2SF 0) (Prim2SF t)) as [[ | | ]|] eqn:E;
    try discriminate.
  intros _. now rewrite (SFcompare_Lt_Gt _ _ E).
Qed.

(** ** The catalog resolver *)

Section Resolver.

Variable spotify : Spotify.
Variable ratio : string -> string -> float.

(** The outcome of [get_track] in each case of the search result. *)
Lemma get_track_cases (artist_name title : string) (t : float) (s : state) :
  let q := query_of artist_name title in
  let s1 := after s [Search q "track" (Some 2)] in
  get_track spotify ratio artist_name title t s =
  match search_track spotify q with
  | [] => (Ok "", s1)
  | track :: _ =>
      if (t =? 0)%float then (Ok (track_uri track), s1)
      else
        match track_artists track with
        | [] => (Raise IndexError, s1)
        | a :: _ =>
            if (t <=? str_similarity ratio a artist_name)%float
               && (t <=? str_similarity ratio (track_name track) title)%float
            then (Ok (track_uri track), s1)
            else (Ok "", s1)
        end
  end.
Proof.
  unfold get_track, query_of, Eff.bind, Eff.emit, Eff.ret, Eff.lift, after.
  cbn zeta beta iota.
  destruct (search_track spotify _) as [|track rest]; [reflexivity|].
  destruct (t =? 0)%float; [reflexivity|].
  destruct (track_artists track) as [|a others]; [reflexivity|]. simpl.
  destruct (_ && _); reflexivity.
Qed.

(** The outcome of [get_tracks_from_album] in each case of the search
    result. *)
Lemma get_tracks_from_album_cases (artist_name title : string) (t : float)
  (s : state) :
  let q := query_of artist_name title in
  let s1 := after s [Search q "album" None] in
  get_tracks_from_album spotify ratio artist_name title t s =
  match search_album spotify q with
  | [] => (Ok [], s1)
  | album :: _ =>
      let accepted :=
        (Ok (map track_uri (album_tracks_items spotify (album_uri album))),
         after s [Search q "album" None; AlbumTracks (album_uri album)]) in
      if (t =? 0)%float then accepted
      else
        match album_artists album with
        | [] => (Raise IndexError, s1)
        | a :: _ =>
            if (t <=? str_similarity ratio a artist_name)%float
               && (t <=? str_similarity ratio title (album_name album))%float
            then accepted
            else (Ok [], s1)
        end
  end.
Proof.
  unfold get_tracks_from_album, query_of, album_track_uris, Eff.bind,
    Eff.emit, Eff.ret, Eff.lift, after.
  cbn zeta beta iota.
  destruct (search_album spotify _) as [|album rest]; [reflexivity|].
  destruct (t =? 0)%float; simpl; [now rewrite <- app_assoc|].
  destruct (album_artists album) as [|a others]; [reflexivity|]. simpl.
  destruct (_ && _); simpl; [now rewrite <- app_assoc | reflexivity].
Qed.

(** With a threshold that is not zero, a URI that is not empty comes from
    a first search result that passed both comparisons. *)
Lemma get_track_accepts_only_above (artist_name title : string) (t : float)
  (s s' : state) (uri : string) :
  (t =? 0)%float = false ->
  get_track spotify ratio artist_name title t s = (Ok uri, s') ->
  uri <> "" ->
  exists track rest a others,
    search_track spotify (query_of artist_name title) = track :: rest /\
    track_artists track = a :: others /\
    uri = track_uri track /\
    (t <=? str_similarity ratio a artist_name)%float = true /\
    (t <=? str_similarity ratio (track_name track) title)%float = true.
Proof.
  intros Hnz. rewrite get_track_cases. simpl.
  destruct (search_track spotify _) as [|track rest] eqn:Hs.
  - intros H Hne. injection H as <- _. contradiction.
  - rewrite Hnz.
    destruct (track_artists track) as [|a others] eqn:Ha; [discriminate|].
    destruct (_ && _) eqn:Hb.
    + intros H _. injection H as <- _.
      apply andb_true_iff in Hb. destruct Hb as [Hb1 Hb2].
      exists track, rest, a, others. repeat split; assumption.
    + intros H Hne. injection H as <- _. contradiction.
Qed.

(** For an album the two comparisons are those of the code: the artist is
    scored with the result first, the title with the query first. *)
Lemma get_tracks_from_album_accepts_only_above (artist_name title : string)
  (t : float) (s s' : state) (uris : list string) :
  (t =? 0)%float = false ->
  get_tracks_from_album spotify ratio artist_name title t s = (Ok uris, s') ->
  uris <> [] ->
  exists album rest a others,
    search_album spotify (query_of artist_name title) = album :: rest /\
    album_artists album = a :: others /\
    uris = map track_uri (album_tracks_items spotify (album_uri album)) /\
    (t <=? str_similarity ratio a artist_name)%float = true /\
    (t <=? str_similarity ratio title (album_name album))%float = true.
Proof.
  intros Hnz. rewrite get_tracks_from_album_cases. cbv zeta.
  destruct (search_album spotify _) as [|album rest] eqn:Hs.
  - intros H Hne. injection H as <- _. contradiction.
  - rewrite Hnz.
    destruct (album_artists album) as [|a others] eqn:Ha; [discriminate|].
    destruct (_ && _) eqn:Hb.
    + intros H _. injection H as <- _.
      apply andb_true_iff in Hb. destruct Hb as [Hb1 Hb2].
      exists album, rest, a, others. repeat split; assumption.
    + intros H Hne. injection H as <- _. contradiction.
Qed.

(** X17: for a threshold [t] with [0 < t <= 1], [get_track] returns the URI
    of the first search result when the artist similarity and the title
    similarity, both scored with the result first and the query second,
    are [>= t], and the empty string otherwise; it returns the empty string
    as soon as one of the two is [< t]; and a URI that is not empty is the
    URI of a first result that has both similarities [>= t]. *)
Theorem get_track_similarity_gate (artist_name title : string) (t : float)
  (s : state) :
  (0 <? t)%float = true -> (t <=? 1)%float = true ->
  let q := query_of artist_name title in
  (forall track rest a others,
      search_track spotify q = track :: rest ->
      track_artists track = a :: others ->
      let sa := str_similarity ratio a artist_name in
      let st := str_similarity ratio (track_name track) title in
      let s1 := after s [Search q "track" (Some 2)] in
      get_track spotify ratio artist_name title t s =
      (Ok (if (t <=? sa)%float && (t <=? st)%float
           then track_uri track else ""), s1) /\
      ((sa <? t)%float = true \/ (st <? t)%float = true ->
       get_track spotify ratio artist_name title t s = (Ok "", s1))) /\
  (forall uri s',
      get_track spotify ratio artist_name title t s = (Ok uri, s') ->
      uri <> "" ->
      exists track rest a others,
        search_track spotify q = track :: rest /\
        track_artists track = a :: others /\
        uri = track_uri track /\
        (t <=? str_similarity ratio a artist_name)%float = true /\
        (t <=? str_similarity ratio (track_name track) title)%float = true).
Proof.
  intros Hpos _ q.
  pose proof (@float_pos_neq_zero t Hpos) as Hnz.
  split.
  - intros track rest a others Hs Ha sa st s1.
    rewrite get_track_cases. fold q. rewrite Hs, Hnz, Ha. fold sa st s1.
    split.
    + destruct (_ && _); reflexivity.
    + intros [H|H]; apply float_ltb_not_geb in H; rewrite H;
        [|rewrite andb_false_r]; reflexivity.
  - intros uri s' Hrun Hne.
    exact (get_track_accepts_only_above _ _ _ Hnz Hrun Hne).
Qed.

(** What decides for an album is the score of the query title against the
    album name, [str_similarity title album_name]: when it and the artist
    score are [>= t] the tracks of the album are returned, whatever the
    score of the album name against the query title is. *)
Lemma get_tracks_from_album_gate (artist_name title : string) (t : float)
  (s : state) (album : Album) (rest : list Album) (a : string)
  (others : list string) :
  (t =? 0)%float = false ->
  search_album spotify (query_of artist_name title) = album :: rest ->
  album_artists album = a :: others ->
  get_tracks_from_album spotify ratio artist_name title t s =
  if (t <=? str_similarity ratio a artist_name)%float
     && (t <=? str_similarity ratio title (album_name album))%float
  then (Ok (map track_uri (album_tracks_items spotify (album_uri album))),
        after s [Search (query_of artist_name title) "album" None;
                 AlbumTracks (album_uri album)])
  else (Ok [], after s [Search (query_of artist_name title) "album" None]).
Proof.
  intros Hnz Hs Ha. rewrite get_tracks_from_album_cases. cbv zeta.
  rewrite Hs, Hnz, Ha. reflexivity.
Qed.

(** C8: with a threshold equal to 0.0, [get_track] returns the URI of the
    first search result and [get_tracks_from_album] the URIs of all the
    tracks of the first album, whatever the scorer says of their artist
    and title. *)
Theorem zero_threshold_accepts (artist_name title : string) (t : float)
  (s : state) :
  (t =? 0)%float = true ->
  let q := query_of artist_name title in
  (forall track rest,
      search_track spotify q = track :: rest ->
      get_track spotify ratio artist_name title t s =
      (Ok (track_uri track), after s [Search q "track" (Some 2)])) /\
  (forall album rest,
      search_album spotify q = album :: rest ->
      get_tracks_from_album spotify ratio artist_name title t s =
      (Ok (map track_uri (album_tracks_items spotify (album_uri album))),
       after s [Search q "album" None; AlbumTracks (album_uri album)])).
Proof.
  intros Hz q. split.
  - intros track rest Hs. rewrite get_track_cases. fold q.
    now rewrite Hs, Hz.
  - intros album rest Hs. rewrite get_tracks_from_album_cases. fold q.
    rewrite Hs. simpl. now rewrite Hz.
Qed.

(** C9: when the search has no result, [get_track] returns the empty
    string and [get_tracks_from_album] the empty list, and neither
    raises, whatever the threshold. *)
Theorem no_results_empty (artist_name title : string) (t : float)
  (s : state) :
  let q := query_of artist_name title in
  (search_track spotify q = [] ->
   get_track spotify ratio artist_name title t s =
   (Ok "", after s [Search q "track" (Some 2)])) /\
  (search_album spotify q = [] ->
   get_tracks_from_album spotify ratio artist_name title t s =
   (Ok [], after s [Search q "album" None])).
Proof.
  intros q. split; intros Hs.
  - rewrite get_track_cases. fold q. now rewrite Hs.
  - rewrite get_tracks_from_album_cases. fold q. now rewrite Hs.
Qed.

End Resolver.

Lemma get_track_similarity_gate_witness :
  (0 <? 0.95)%float = true /\
  (0.95 <=? 1)%float = true /\
  search_track example_spotify (query_of "Wire" "Outdoor Miner") =
    [example_track] /\
  track_artists example_track = ["Wire"] /\
  str_similarity ratio_99_80 "Wire" "Wire" = 0.99%float /\
  str_similarity ratio_99_80 (track_name example_track) "Outdoor Miner" =
    0.80%float /\
  get_track example_spotify ratio_99_80 "Wire" "Outdoor Miner" 0.95%float
    initial_state =
  (Ok "", after initial_state [Search "Wire Outdoor Miner" "track" (Some 2)]).
Proof.
  repeat (split; [reflexivity|]).
  destruct (@get_track_similarity_gate example_spotify ratio_99_80
              "Wire" "Outdoor Miner" 0.95%float initial_state
              eq_refl eq_refl) as [Htrack _].
  destruct (Htrack example_track [] "Wire" [] eq_refl eq_refl) as [_ Hbelow].
  apply Hbelow. right. reflexivity.
Defined.

(** C7, at an input where the program departs from it: the threshold is
    0.4, the query title is [diet] and the first result is named [tide],
    by the artist of the query.  The title similarity, the score of the
    name of the result against the title of the query, is 0.25, below the
    threshold, and [get_track] returns the empty string.
    [get_tracks_from_album] scores the title of the query against the name
    of the result instead, which gives 0.5, and returns the tracks of the
    album. *)
Theorem album_title_score_reversed :
  str_similarity ratio_tide_diet "Can" "Can" = 1.0%float /\
  str_similarity ratio_tide_diet "tide" "diet" = 0.25%float /\
  (str_similarity ratio_tide_diet "tide" "diet" <? 0.4)%float = true /\
  str_similarity ratio_tide_diet "diet" "tide" = 0.5%float /\
  get_track example_spotify_tide ratio_tide_diet "Can" "diet" 0.4%float
    initial_state =
  (Ok "", after initial_state [Search "Can diet" "track" (Some 2)]) /\
  get_tracks_from_album example_spotify_tide ratio_tide_diet "Can" "diet"
    0.4%float initial_state =
  (Ok ["spotify:track:tm1"; "spotify:track:tm2"; "spotify:track:tm3"],
   after initial_state [Search "Can diet" "album" None;
                        AlbumTracks "spotify:album:tide"]).
Proof.
  repeat (split; [reflexivity|]).
  rewrite (@get_tracks_from_album_gate example_spotify_tide ratio_tide_diet
             "Can" "diet" 0.4%float initial_state
             {| album_uri := "spotify:album:tide"; album_name := "tide";
                album_artists := ["Can"] |} [] "Can" []
             eq_refl eq_refl eq_refl).
  reflexivity.
Qed.

Lemma zero_threshold_accepts_witness :
  (0.0 =? 0)%float = true /\
  search_track example_spotify (query_of "Wire" "Outdoor Miner") =
    [example_track] /\
  get_track example_spotify zero_ratio "Wire" "Outdoor Miner" 0.0%float
    initial_state =
  (Ok "spotify:track:om",
   after initial_state [Search "Wire Outdoor Miner" "track" (Some 2)]) /\
  search_album example_spotify (query_of "Can" "Tago Mago") =
    [example_album] /\
  get_tracks_from_album example_spotify zero_ratio "Can" "Tago Mago"
    0.0%float initial_state =
  (Ok ["spotify:track:tm1"; "spotify:track:tm2"; "spotify:track:tm3"],
   after initial_state [Search "Can Tago Mago" "album" None;
                        AlbumTracks "spotify:album:tm"]).
Proof.
  split; [reflexivity|].
  split; [reflexivity|].
  split.
  { destruct (@zero_threshold_accepts example_spotify zero_ratio
                "Wire" "Outdoor Miner" 0.0%float initial_state eq_refl)
      as [Htrack _].
    exact (Htrack example_track [] eq_refl). }
  split; [reflexivity|].
  destruct (@zero_threshold_accepts example_spotify zero_ratio
              "Can" "Tago Mago" 0.0%float initial_state eq_refl)
    as [_ Halbum].
  exact (Halbum example_album [] eq_refl).
Defined.

Lemma no_results_empty_witness :
  search_track example_spotify (query_of "Nobody" "Nothing") = [] /\
  get_track example_spotify exact_ratio "Nobody" "Nothing" 0.95%float
    initial_state =
  (Ok "", after initial_state [Search "Nobody Nothing" "track" (Some 2)]) /\
  search_album example_spotify (query_of "Nobody" "Nothing") = [] /\
  get_tracks_from_album example_spotify exact_ratio "Nobody" "Nothing"
    0.95%float initial_state =
  (Ok [], after initial_state [Search "Nobody Nothing" "album" None]).
Proof.
  split; [reflexivity|].
  split.
  { apply (proj1 (@no_results_empty example_spotify exact_ratio
                    "Nobody" "Nothing" 0.95%float initial_state)).
    reflexivity. }
  split; [reflexivity|].
  apply (proj2 (@no_results_empty example_spotify exact_ratio
                  "Nobody" "Nothing" 0.95%float initial_state)).
  reflexivity.
Defined.

(** With the default threshold, a first result whose artist and title
    equal those of the query is accepted. *)
Example get_track_default_threshold :
  get_track example_spotify exact_ratio "Wire" "Outdoor Miner"
    default_similarity_threshold initial_state =
  (Ok "spotify:track:om",
   after initial_state [Search "Wire Outdoor Miner" "track" (Some 2)]).
Proof. vm_compute. reflexivity. Qed.

(** ** The script *)

Section Script.

Variable spotify : Spotify.
Variable ratio : string -> string -> float.
Variable USER_ID : string.

(** An entry of type ["album"] extends [to_be_added] with what
    [get_tracks_from_album] returns, which may be nothing. *)
Lemma fetch_uris_album (list_entry : Entry) (rest : list Entry)
  (to_be_added album_items : list string) (s s' : state) :
  type list_entry = "album" ->
  get_tracks_from_album spotify ratio (artist list_entry) (title list_entry)
    default_similarity_threshold s = (Ok album_items, s') ->
  fetch_uris spotify ratio (list_entry :: rest) to_be_added s =
  fetch_uris spotify ratio rest (to_be_added ++ album_items)
    (after s' [Sleep 0.25%float]).
Proof.
  intros Hty Hget. simpl. rewrite Hty. simpl.
  unfold Eff.bind at 1. rewrite Hget.
  unfold Eff.bind at 1. rewrite emit_after. reflexivity.
Qed.

(** An entry of any other type appends what [get_track] returns, be it
    the empty string: [to_be_added] grows by one element. *)
Lemma fetch_uris_track (list_entry : Entry) (rest : list Entry)
  (to_be_added : list string) (item : string) (s s' : state) :
  type list_entry <> "album" ->
  get_track spotify ratio (artist list_entry) (title list_entry)
    default_similarity_threshold s = (Ok item, s') ->
  fetch_uris spotify ratio (list_entry :: rest) to_be_added s =
  fetch_uris spotify ratio rest (to_be_added ++ [item])
    (after s' [Sleep 0.25%float]).
Proof.
  intros Hty Hget. simpl.
  destruct (String.eqb_spec (type list_entry) "album") as [Heq|_];
    [contradiction|].
  unfold Eff.bind at 1. rewrite Hget.
  unfold Eff.bind at 1. rewrite emit_after. reflexivity.
Qed.

(** A single that the search does not find leaves an empty string in
    [to_be_added]. *)
Lemma fetch_uris_track_no_result (list_entry : Entry) (rest : list Entry)
  (to_be_added : list string) (s : state) :
  type list_entry <> "album" ->
  search_track spotify (query_of (artist list_entry) (title list_entry)) = [] ->
  fetch_uris spotify ratio (list_entry :: rest) to_be_added s =
  fetch_uris spotify ratio rest (to_be_added ++ [""])
    (after s [Search (query_of (artist list_entry) (title list_entry))
                "track" (Some 2);
              Sleep 0.25%float]).
Proof.
  intros Hty Hs.
  rewrite (@fetch_uris_track list_entry rest to_be_added ""
             s (after s [Search (query_of (artist list_entry)
                                   (title list_entry)) "track" (Some 2)])
             Hty).
  - now rewrite after_after.
  - rewrite get_track_cases. cbv zeta. now rewrite Hs.
Qed.

(** [publish] creates a playlist named [playlist_name], whatever the name
    is, and every [playlist_add_items] call that follows has the new
    playlist as its target. *)
Lemma publish_creates (playlist_name : string) (to_be_added : list string)
  (s : state) :
  let created :=
    user_playlist_create_id spotify USER_ID playlist_name
      default_description in
  exists batches,
    publish spotify USER_ID playlist_name to_be_added s =
    (Ok tt,
     after s (UserPlaylistCreate USER_ID playlist_name default_description
              :: map (PlaylistAddItems created) batches)) /\
    List.concat batches = to_be_added.
Proof.
  intros created. unfold publish, create_playlist.
  unfold Eff.bind at 1. unfold Eff.bind at 1. rewrite emit_after.
  unfold Eff.ret. fold created.
  exists (batches_of to_be_added). split; [|apply batches_of_concat].
  rewrite add_tracks_run, after_after. reflexivity.
Qed.

End Script.

(** C1, at an input where the program departs from it: a single that the
    search does not find is not skipped; the loop appends the empty string
    that [get_track] returns, and [to_be_added] has one element. *)
Theorem fetch_uris_keeps_empty_result (ratio : string -> string -> float) :
  fetch_uris example_spotify ratio [example_unknown_single] [] initial_state =
  (Ok [""],
   after initial_state [Search "Nobody Nothing" "track" (Some 2);
                        Sleep 0.25%float]).
Proof.
  rewrite fetch_uris_track_no_result; [reflexivity | discriminate | reflexivity].
Qed.

(** An album that the search does not find adds nothing. *)
Example fetch_uris_album_no_result (ratio : string -> string -> float) :
  fetch_uris example_spotify ratio
    [{| artist := "Nobody"; title := "Nothing"; type := "album" |}] []
    initial_state =
  (Ok [],
   after initial_state [Search "Nobody Nothing" "album" None;
                        Sleep 0.25%float]).
Proof.
  rewrite (@fetch_uris_album example_spotify ratio
             {| artist := "Nobody"; title := "Nothing"; type := "album" |}
             [] [] [] initial_state
             (after initial_state [Search "Nobody Nothing" "album" None])
             eq_refl).
  - reflexivity.
  - rewrite get_tracks_from_album_cases. reflexivity.
Qed.

(** An album of three tracks and a single: four URIs, the tracks of the
    album first. *)
Example fetch_uris_album_then_track :
  fetch_uris example_spotify exact_ratio
    [ {| artist := "Can"; title := "Tago Mago"; type := "album" |};
      {| artist := "Wire"; title := "Outdoor Miner"; type := "track" |} ]
    [] initial_state =
  (Ok ["spotify:track:tm1"; "spotify:track:tm2"; "spotify:track:tm3";
       "spotify:track:om"],
   after initial_state
     [ Search "Can Tago Mago" "album" None;
       AlbumTracks "spotify:album:tm";
       Sleep 0.25%float;
       Search "Wire Outdoor Miner" "track" (Some 2);
       Sleep 0.25%float ]).
Proof. vm_compute. reflexivity. Qed.

(** C2, at an input where the program departs from it: the user answers
    [y] and gives the id of an existing playlist; the script creates a
    playlist that has this id as its name and adds the tracks to the new
    playlist, and no call has the given id as its target. *)
Theorem main_creates_for_existing :
  main example_spotify exact_ratio "user" [example_page_known]
    example_stdin_existing =
  (Ok tt,
   {| stdin := [];
      trace :=
        [ Input "Add to existing playlist? (y/n)";
          Input "Please enter the ID of the playlist you wish to add to: ";
          Search "Can Tago Mago" "album" None;
          AlbumTracks "spotify:album:tm";
          Sleep 0.25%float;
          Search "Wire Outdoor Miner" "track" (Some 2);
          Sleep 0.25%float;
          UserPlaylistCreate "user" "37i9dQZF1DX" "Curated by yours truly.";
          PlaylistAddItems "playlist:37i9dQZF1DX"
            ["spotify:track:tm1"; "spotify:track:tm2"; "spotify:track:tm3";
             "spotify:track:om"] ] |}).
Proof. vm_compute. reflexivity. Qed.

(** The same pages with the answer [n]: the same calls, but for the
    prompt. *)
Example main_creates_for_new :
  main example_spotify exact_ratio "user" [example_page_known]
    {| stdin := ["n"; "Krautrock"]; trace := [] |} =
  (Ok tt,
   {| stdin := [];
      trace :=
        [ Input "Add to existing playlist? (y/n)";
          Input "Please enter a name for the playlist: ";
          Search "Can Tago Mago" "album" None;
          AlbumTracks "spotify:album:tm";
          Sleep 0.25%float;
          Search "Wire Outdoor Miner" "track" (Some 2);
          Sleep 0.25%float;
          UserPlaylistCreate "user" "Krautrock" "Curated by yours truly.";
          PlaylistAddItems "playlist:Krautrock"
            ["spotify:track:tm1"; "spotify:track:tm2"; "spotify:track:tm3";
             "spotify:track:om"] ] |}).
Proof. vm_compute. reflexivity. Qed.

(** ** The built-ins on small inputs *)

Example py_range_up : py_range 0 7 3 = Ok [0; 3; 6].
Proof. reflexivity. Qed.

Example py_range_down : py_range 5 0 (-2) = Ok [5; 3; 1].
Proof. reflexivity. Qed.

Example py_range_negative_step_empty : py_range 0 3 (-1) = Ok [].
Proof. reflexivity. Qed.

Example py_slice_past_end : py_slice [1; 2; 3; 4; 5] 3 6 = [4; 5].
Proof. reflexivity. Qed.

Example py_slice_negative : py_slice [1; 2; 3; 4; 5] (-2) 5 = [4; 5].
Proof. reflexivity. Qed.

Example contains_single :
  contains "/release/single/" "/release/single/wire/outdoor-miner/" = true /\
  contains "/release/single/" "/release/album/can/tago-mago/" = false.
Proof. split; reflexivity. Qed.

Example lower_answer : lower "Y" = "y" /\ lower "yes" = "yes".
Proof. split; reflexivity. Qed.

(** * Further properties *)

(** ** The page parser: which pages parse, and how the others fail *)

Lemma res_bind_raise {A B : Type} (r : result A) (k : A -> result B) (e : exn) :
  Res.bind r k = Raise e ->
  r = Raise e \/ exists a, r = Ok a /\ k a = Raise e.
Proof.
  destruct r as [a|e']; simpl; intros H; [eauto|].
  left. injection H as ->. reflexivity.
Qed.

Lemma incomplete_row_false (item : option Tag) :
  incomplete_row item = false ->
  exists tag al ar,
    item = Some tag /\ list_album tag = Some al /\ list_artist tag = Some ar.
Proof.
  destruct item as [tag|]; simpl; [|discriminate].
  destruct (list_album tag) as [al|] eqn:Hal; [|discriminate].
  destruct (list_artist tag) as [ar|] eqn:Har; [|discriminate].
  intros _. exists tag, al, ar. repeat split; assumption.
Qed.

(** The URLs are computed exactly when every row has its album anchor, and
    the only error of the comprehension is [AttributeError]. *)
Lemma item_urls_cases (list_items : Page) :
  (exists urls,
      Res.comprehension item_url list_items = Ok urls /\
      Forall2 (fun item url => exists tag al,
                   item = Some tag /\ list_album tag = Some al /\
                   url = href al) list_items urls) \/
  (Res.comprehension item_url list_items = Raise AttributeError /\
   existsb incomplete_row list_items = true).
Proof.
  induction list_items as [|item rest IH]; simpl.
  - left. exists []. split; [reflexivity | constructor].
  - destruct item as [tag|]; simpl; [|right; split; reflexivity].
    destruct (list_album tag) as [al|] eqn:Hal; simpl;
      [|right; split; reflexivity].
    destruct IH as [(urls & -> & Hall)|[-> Hex]]; simpl.
    + left. exists (href al :: urls). split; [reflexivity|].
      constructor; [|exact Hall].
      exists tag, al. repeat split. exact Hal.
    + right. split; [reflexivity|]. rewrite Hex. apply orb_true_r.
Qed.

(** The same for [entries_simplified], on rows that have their album
    anchor. *)
Lemma simplify_entries_cases (list_items : Page)
  (urls : list (option string)) :
  Forall2 (fun item url => exists tag al,
               item = Some tag /\ list_album tag = Some al /\
               url = href al) list_items urls ->
  (exists es,
      simplify_entries list_items = Ok es /\
      List.length es = List.length list_items /\
      existsb incomplete_row list_items = false) \/
  (simplify_entries list_items = Raise AttributeError /\
   existsb incomplete_row list_items = true).
Proof.
  induction 1 as [|item url rest urls (tag & al & -> & Hal & _) _ IH]; simpl.
  - left. exists []. repeat split.
  - unfold simplify. rewrite Hal.
    destruct (list_artist tag) as [ar|] eqn:Har; simpl;
      [|right; split; reflexivity].
    destruct IH as [(es & -> & Hlen & Hex)|[-> Hex]]; simpl.
    + left. eexists. repeat split; [simpl; lia | exact Hex].
    + right. split; [reflexivity | exact Hex].
Qed.

(** A URL is [None] exactly for a row whose album anchor has no [href]. *)
Lemma href_missing_urls (list_items : Page) (urls : list (option string)) :
  Forall2 (fun item url => exists tag al,
               item = Some tag /\ list_album tag = Some al /\
               url = href al) list_items urls ->
  (Exists (fun url => url = None) urls ->
   existsb href_missing list_items = true) /\
  (Forall (fun url => url <> None) urls ->
   existsb href_missing list_items = false).
Proof.
  induction 1 as [|item url rest urls (tag & al & -> & Hal & ->) _ [IH1 IH2]].
  - split; [inversion 1 | reflexivity].
  - assert (Hm : href_missing (Some tag) =
                 match href al with None => true | Some _ => false end).
    { destruct tag as [a b]. simpl in Hal. subst a.
      destruct al as [[u|] t]; reflexivity. }
    cbn [existsb]. rewrite Hm. split.
    + intros Hex. inversion Hex as [? ? Hnone|? ? Hrest]; subst.
      * now rewrite Hnone.
      * rewrite (IH1 Hrest). apply orb_true_r.
    + intros Hall. inversion Hall as [|? ? Hsome Hrest]; subst.
      rewrite (IH2 Hrest).
      destruct (href al); [reflexivity | contradiction].
Qed.

(** The loop raises [TypeError] on a URL that is [None] and [IndexError]
    when [entries_simplified] is too short, and nothing else. *)
Lemma append_results_cases (urls : list (option string)) :
  forall (i : nat) (es : list Simplified) (acc : list Entry),
    (i + List.length urls <= List.length es)%nat ->
    (exists res,
        append_results i urls es acc = Ok res /\
        List.length res = (List.length acc + List.length urls)%nat /\
        Forall (fun url => url <> None) urls) \/
    (append_results i urls es acc = Raise TypeError /\
     Exists (fun url => url = None) urls).
Proof.
  induction urls as [|url urls IH]; intros i es acc Hlen; simpl in *.
  - left. exists acc. repeat split; [lia | constructor].
  - destruct url as [u|]; simpl;
      [|right; split; [reflexivity | constructor; reflexivity]].
    unfold item_at.
    destruct (nth_error es i) as [e|] eqn:Hnth.
    2:{ apply nth_error_None in Hnth. lia. }
    simpl.
    destruct (IH (S i) es
                (acc ++ [{| artist := s_artist e; title := s_title e;
                            type := if contains "/release/single/" u
                                    then "track" else "album" |}])
                ltac:(lia))
      as [(res & Hres & Hl & Hall)|[Hres Hex]].
    + left. exists res. repeat split; [exact Hres | |].
      * rewrite Hl, length_app. simpl. lia.
      * constructor; [discriminate | exact Hall].
    + right. split; [exact Hres | now constructor 2].
Qed.

Lemma assert_nonempty {A : Type} (l : list A) (msg : string) :
  l <> [] -> Res.assert (0 <? len l) msg = Ok tt.
Proof.
  intros Hne. destruct l as [|x l]; [contradiction|].
  unfold len. destruct (Z.ltb_spec 0 (Z.of_nat (List.length (x :: l))));
    [reflexivity | simpl in *; lia].
Qed.

Lemma length_nonempty {A B : Type} (l : list A) (l' : list B) :
  List.length l' = List.length l -> l <> [] -> l' <> [].
Proof. destruct l, l'; simpl; intros; congruence. Qed.

(** The four outcomes of [parse_page]. *)
Lemma parse_page_cases (list_items : Page) :
  (list_items = [] /\
   parse_page list_items = Raise (AssertionError "No entries found.")) \/
  (list_items <> [] /\
   existsb incomplete_row list_items = true /\
   parse_page list_items = Raise AttributeError) \/
  (list_items <> [] /\
   existsb incomplete_row list_items = false /\
   existsb href_missing list_items = true /\
   parse_page list_items = Raise TypeError) \/
  (list_items <> [] /\
   existsb incomplete_row list_items = false /\
   existsb href_missing list_items = false /\
   exists results, parse_page list_items = Ok results).
Proof.
  destruct list_items as [|item rest]; [left; split; reflexivity|].
  right. set (list_items := item :: rest).
  assert (Hne : list_items <> []) by discriminate.
  unfold parse_page. rewrite (assert_nonempty _ Hne). cbn [Res.bind].
  destruct (item_urls_cases list_items) as [(urls & -> & HF)|[-> Hex]].
  2:{ left. repeat split; assumption. }
  cbn [Res.bind]. unfold parse_page_urls.
  pose proof (Forall2_length HF) as Hlu.
  rewrite (assert_nonempty _ (length_nonempty (eq_sym Hlu) Hne)).
  cbn [Res.bind].
  destruct (simplify_entries_cases HF) as [(es & -> & Hle & Hinc)|[-> Hex]].
  2:{ left. repeat split; assumption. }
  right. cbn [Res.bind]. unfold parse_page_simplified.
  rewrite (assert_nonempty _ (length_nonempty Hle Hne)). cbn [Res.bind].
  destruct (href_missing_urls HF) as [Hmiss Hnomiss].
  destruct (@append_results_cases urls 0 es [] ltac:(simpl; lia))
    as [(res & -> & Hlr & Hall)|[-> Hex]].
  - right. cbn [Res.bind].
    assert (Heq : (len urls =? len es) = true).
    { apply Z.eqb_eq. unfold len. lia. }
    rewrite Heq. cbn [Res.assert Res.bind].
    assert (Hres : res <> []).
    { apply (length_nonempty (l := list_items)); [simpl in Hlr; lia | exact Hne]. }
    rewrite (assert_nonempty _ Hres).
    repeat split; auto. eexists. reflexivity.
  - left. repeat split; auto.
Qed.

(** X1: a page with at least one row, where every row has its album
    anchor with an [href] and its artist anchor, parses, and the result has
    the entry of every row, in the order of the rows. *)
Theorem parse_page_complete (list_items : Page) :
  list_items <> [] ->
  existsb incomplete_row list_items = false ->
  existsb href_missing list_items = false ->
  exists results,
    parse_page list_items = Ok results /\
    Forall2 row_entry list_items results.
Proof.
  intros Hne Hinc Hhref.
  destruct (parse_page_cases list_items)
    as [[Hnil _]|[(_ & H & _)|[(_ & _ & H & _)|(_ & _ & _ & results & Hok)]]];
    try congruence.
  exists results. split; [exact Hok | now apply parse_page_ok].
Qed.

(** X2: [parse_page] raises nothing but the assertion on the entry nodes,
    for a page without rows, [AttributeError], for a page with a row that
    lacks an anchor, and [TypeError], for a page whose rows all have their
    anchors but one album anchor lacks its [href]; the other four
    assertions and the index into [entries_simplified] never fail. *)
Theorem parse_page_errors (list_items : Page) (e : exn) :
  parse_page list_items = Raise e ->
  (e = AssertionError "No entries found." /\ list_items = []) \/
  (e = AttributeError /\ list_items <> [] /\
   existsb incomplete_row list_items = true) \/
  (e = TypeError /\ list_items <> [] /\
   existsb incomplete_row list_items = false /\
   existsb href_missing list_items = true).
Proof.
  intros Hraise.
  destruct (parse_page_cases list_items)
    as [[Hnil H]|[(Hne & Hinc & H)|[(Hne & Hinc & Hhref & H)
                                   |(_ & _ & _ & results & H)]]];
    rewrite H in Hraise; try discriminate; injection Hraise as <-.
  - left. split; [reflexivity | exact Hnil].
  - right. left. repeat split; assumption.
  - right. right. repeat split; assumption.
Qed.

(** X3: a row that lacks its album anchor or its artist anchor makes the
    whole page fail with [AttributeError], wherever the row is and whatever
    the other rows are; when no row lacks an anchor, an album anchor
    without [href] makes the page fail with [TypeError]. *)
Theorem parse_page_rejects (list_items : Page) :
  (existsb incomplete_row list_items = true ->
   parse_page list_items = Raise AttributeError) /\
  (existsb incomplete_row list_items = false ->
   existsb href_missing list_items = true ->
   parse_page list_items = Raise TypeError).
Proof.
  destruct (parse_page_cases list_items)
    as [[-> _]|[(_ & Hinc & H)|[(_ & Hinc & Hhref & H)
                               |(_ & Hinc & Hhref & _)]]];
    split; intros; simpl in *; congruence.
Qed.

Lemma parse_page_complete_witness :
  example_page <> [] /\
  existsb incomplete_row example_page = false /\
  existsb href_missing example_page = false /\
  exists results,
    parse_page example_page = Ok results /\
    Forall2 row_entry example_page results.
Proof.
  split; [discriminate|].
  split; [reflexivity|].
  split; [reflexivity|].
  apply (@parse_page_complete example_page); [discriminate | reflexivity..].
Defined.

Lemma parse_page_errors_witness :
  parse_page (example_page ++ [example_row_no_href]) = Raise TypeError /\
  ((TypeError = AssertionError "No entries found." /\
    example_page ++ [example_row_no_href] = []) \/
   (TypeError = AttributeError /\
    example_page ++ [example_row_no_href] <> [] /\
    existsb incomplete_row (example_page ++ [example_row_no_href]) = true) \/
   (TypeError = TypeError /\
    example_page ++ [example_row_no_href] <> [] /\
    existsb incomplete_row (example_page ++ [example_row_no_href]) = false /\
    existsb href_missing (example_page ++ [example_row_no_href]) = true)).
Proof.
  split; [reflexivity|].
  apply (@parse_page_errors (example_page ++ [example_row_no_href]) TypeError).
  reflexivity.
Defined.

Lemma parse_page_rejects_witness :
  existsb incomplete_row (example_row_no_artist :: example_page) = true /\
  parse_page (example_row_no_artist :: example_page) = Raise AttributeError /\
  existsb incomplete_row (example_page ++ [example_row_no_href]) = false /\
  existsb href_missing (example_page ++ [example_row_no_href]) = true /\
  parse_page (example_page ++ [example_row_no_href]) = Raise TypeError.
Proof.
  split; [reflexivity|].
  split.
  { apply (proj1 (parse_page_rejects (example_row_no_artist :: example_page))).
    reflexivity. }
  split; [reflexivity|].
  split; [reflexivity|].
  apply (proj2 (parse_page_rejects (example_page ++ [example_row_no_href])));
    reflexivity.
Defined.

(** ** The type of an entry *)

Lemma prefix_app (sub s : string) :
  String.prefix sub s = true <-> exists post, s = (sub ++ post)%string.
Proof.
  revert s. induction sub as [|c sub IH]; intros s.
  - split; [intros _; exists s; reflexivity | destruct s; reflexivity].
  - destruct s as [|d s]; simpl.
    + split; [discriminate | intros [post H]; discriminate].
    + destruct (ascii_dec c d) as [->|Hne].
      * rewrite IH. split; intros [post H]; exists post.
        -- now rewrite H.
        -- now injection H.
      * split; [discriminate|].
        intros [post H]. injection H as H _. congruence.
Qed.

(** [contains sub s] holds exactly when [sub] occurs in [s]. *)
Lemma contains_occurs (sub s : string) :
  contains sub s = true <->
  exists pre post, s = (pre ++ sub ++ post)%string.
Proof.
  induction s as [|d s IH]; cbn [contains].
  - rewrite orb_false_r, prefix_app. split.
    + intros [post H]. exists "", post. exact H.
    + intros (pre & post & H). destruct pre as [|c pre]; [|discriminate].
      exists post. exact H.
  - rewrite orb_true_iff, IH, prefix_app. split.
    + intros [[post H]|(pre & post & H)].
      * exists "", post. exact H.
      * exists (String d pre), post. simpl. now rewrite H.
    + intros (pre & post & H). destruct pre as [|c pre].
      * left. exists post. exact H.
      * right. exists pre, post. simpl in H. now injection H.
Qed.

(** X4: in the result of [parse_page] every entry has the type ["track"]
    or the type ["album"], and a row gives a ["track"] exactly when
    [/release/single/] occurs in the [href] of its album anchor. *)
Theorem parse_page_types (list_items : Page) (results : list Entry) :
  parse_page list_items = Ok results ->
  Forall (fun r => type r = "track" \/ type r = "album") results /\
  Forall2 (fun item r =>
             forall tag al u,
               item = Some tag -> list_album tag = Some al ->
               href al = Some u ->
               (type r = "track" <->
                exists pre post,
                  u = (pre ++ "/release/single/" ++ post)%string))
          list_items results.
Proof.
  intros Hok. apply parse_page_ok in Hok.
  induction Hok as [|item r rest results
                     (tag & al & ar & u & -> & Hal & Har & Hu & ->) _ [IH1 IH2]].
  - split; constructor.
  - split; constructor; try assumption.
    + simpl. destruct (contains _ u); [left | right]; reflexivity.
    + intros tag' al' u' Htag Hal' Hu'. injection Htag as <-.
      rewrite Hal in Hal'. injection Hal' as <-.
      rewrite Hu in Hu'. injection Hu' as <-.
      rewrite <- contains_occurs. simpl.
      destruct (contains _ u); split; intros; try reflexivity; discriminate.
Qed.

Lemma parse_page_types_witness :
  exists results,
    parse_page example_page = Ok results /\
    Forall (fun r => type r = "track" \/ type r = "album") results /\
    Forall2 (fun item r =>
               forall tag al u,
                 item = Some tag -> list_album tag = Some al ->
                 href al = Some u ->
                 (type r = "track" <->
                  exists pre post,
                    u = (pre ++ "/release/single/" ++ post)%string))
            example_page results.
Proof.
  eexists. split; [reflexivity|].
  apply (@parse_page_types example_page). reflexivity.
Defined.

(** ** All the pages *)

(** When the loop of [get_entries] ends, every page has parsed and the
    entries of the pages were appended in the order of the pages. *)
Lemma extend_entries_ok (pages : list Page) :
  forall (acc res : list Entry),
    extend_entries pages acc = Ok res ->
    exists rows,
      res = acc ++ rows /\
      Forall2 row_entry (List.concat pages) rows /\
      Forall (fun page => page <> []) pages.
Proof.
  induction pages as [|page pages IH]; intros acc res H; simpl in H.
  - injection H as <-. exists []. rewrite app_nil_r.
    repeat split; constructor.
  - res_inv. rename a into list_entries.
    apply IH in H. destruct H as (rows & -> & HF & Hne).
    exists (list_entries ++ rows). split; [now rewrite app_assoc|].
    split.
    + simpl. apply Forall2_app; [now apply parse_page_ok | exact HF].
    + constructor; [|exact Hne].
      intros ->. discriminate Ha.
Qed.

(** The loop of [get_entries] stops at the first page that does not
    parse. *)
Lemma extend_entries_failure (good : list Page) (bad : Page)
  (rest : list Page) (e : exn) :
  Forall (fun page => exists r, parse_page page = Ok r) good ->
  parse_page bad = Raise e ->
  forall acc, extend_entries (good ++ bad :: rest) acc = Raise e.
Proof.
  intros Hgood Hbad.
  induction Hgood as [|page good [r Hr] _ IH]; intros acc; simpl.
  - now rewrite Hbad.
  - rewrite Hr. simpl. apply IH.
Qed.

(** X5: [get_entries] fails on an empty directory; when it returns, no
    page was empty, the result has the entry of every row of every page,
    pages in the order of the listing and rows in the order of the page,
    and the result is not empty. *)
Theorem get_entries_all_rows :
  get_entries [] = Raise (AssertionError "No pages found.") /\
  forall (pages : list Page) (results : list Entry),
    get_entries pages = Ok results ->
    Forall (fun page => page <> []) pages /\
    Forall2 row_entry (List.concat pages) results /\
    results <> [].
Proof.
  split; [reflexivity|].
  intros pages results H. unfold get_entries in H. res_inv.
  apply extend_entries_ok in H. destruct H as (rows & -> & HF & Hne).
  simpl. repeat split; try assumption.
  destruct pages as [|page pages]; [discriminate Ha|].
  inversion Hne as [|? ? Hpage _]; subst.
  destruct page as [|item page]; [contradiction|].
  simpl in HF. inversion HF. discriminate.
Qed.

Lemma get_entries_all_rows_witness :
  exists results,
    get_entries [example_page; example_page_known] = Ok results /\
    Forall (fun page => page <> []) [example_page; example_page_known] /\
    Forall2 row_entry (List.concat [example_page; example_page_known])
      results /\
    results <> [].
Proof.
  eexists. split; [reflexivity|].
  apply get_entries_all_rows. reflexivity.
Defined.

(** X6: when a page does not parse and the pages before it do,
    [get_entries] raises the error of that page: the entries of the pages
    before it are not returned, and the pages after it do not matter. *)
Theorem get_entries_first_failure (good : list Page) (bad : Page)
  (rest : list Page) (e : exn) :
  Forall (fun page => exists r, parse_page page = Ok r) good ->
  parse_page bad = Raise e ->
  get_entries (good ++ bad :: rest) = Raise e.
Proof.
  intros Hgood Hbad. unfold get_entries.
  rewrite assert_nonempty by (destruct good; discriminate).
  simpl. now apply extend_entries_failure.
Qed.

Lemma get_entries_first_failure_witness :
  Forall (fun page => exists r, parse_page page = Ok r) [example_page] /\
  parse_page [example_row_no_artist] = Raise AttributeError /\
  get_entries ([example_page] ++ [example_row_no_artist] :: [example_page_known])
  = Raise AttributeError.
Proof.
  assert (Hgood : Forall (fun page => exists r, parse_page page = Ok r)
                    [example_page]).
  { constructor; [eexists; reflexivity | constructor]. }
  split; [exact Hgood|].
  split; [reflexivity|].
  apply (@get_entries_first_failure [example_page] [example_row_no_artist]
           [example_page_known] AttributeError Hgood).
  reflexivity.
Defined.

(** ** More on the chunker *)

Section WindowFacts.

Context {A : Type}.

(** A window that starts inside the list is not empty. *)
Lemma windows_nonempty (l : list A) (n k : nat) :
  (0 < n)%nat ->
  (forall i, (i < k)%nat -> (i * n < List.length l)%nat) ->
  Forall (fun c => c <> []) (windows l n k).
Proof.
  intros Hn Hin. unfold windows. apply Forall_map, Forall_forall.
  intros i Hi. apply in_seq in Hi. specialize (Hin i ltac:(lia)).
  intros Hnil. apply (f_equal (@List.length A)) in Hnil.
  rewrite length_firstn, length_skipn in Hnil. simpl in Hnil. lia.
Qed.

Lemma seq_from (k1 k2 : nat) :
  seq k1 k2 = map (fun j => (k1 + j)%nat) (seq 0 k2).
Proof.
  induction k1 as [|k1 IH].
  - simpl. now rewrite map_id.
  - rewrite <- seq_shift, IH, map_map. reflexivity.
Qed.

(** The windows of [l1 ++ l2], when [l1] is made of [k1] full windows. *)
Lemma windows_app (l1 l2 : list A) (n k1 k2 : nat) :
  List.length l1 = (k1 * n)%nat ->
  windows (l1 ++ l2) n (k1 + k2) = windows l1 n k1 ++ windows l2 n k2.
Proof.
  intros Hl1. unfold windows. rewrite seq_app, map_app. f_equal.
  - apply map_ext_in. intros i Hi. apply in_seq in Hi.
    assert (Hle : (i * n + n <= k1 * n)%nat) by nia.
    rewrite skipn_app, firstn_app, length_skipn.
    replace (i * n - List.length l1)%nat with 0%nat by lia.
    replace (n - (List.length l1 - i * n))%nat with 0%nat by lia.
    simpl. apply app_nil_r.
  - simpl. rewrite seq_from, map_map. apply map_ext. intros j.
    rewrite skipn_app.
    rewrite (skipn_all2 l1) by nia.
    replace ((k1 + j) * n - List.length l1)%nat with (j * n)%nat by nia.
    reflexivity.
Qed.

End WindowFacts.

Lemma chunk_count_last (L n : Z) (i : nat) :
  0 <= L -> 1 <= n -> (i < chunk_count L n)%nat ->
  (i * Z.to_nat n < Z.to_nat L)%nat.
Proof.
  intros HL Hn Hi. unfold chunk_count in Hi.
  pose proof (ceil_bounds L Hn) as Hc.
  assert (Hk : 0 <= (L + n - 1) / n) by (apply Z.div_pos; lia).
  set (k := (L + n - 1) / n) in *.
  assert (Hi' : Z.of_nat i <= k - 1) by lia.
  assert (Hin : Z.of_nat i * n <= (k - 1) * n) by nia.
  assert (Hmul : Z.of_nat (i * Z.to_nat n) = Z.of_nat i * n)
    by (rewrite Nat2Z.inj_mul; lia).
  lia.
Qed.

Lemma chunk_count_multiple (k1 : nat) (L2 n : Z) :
  0 <= L2 -> 1 <= n ->
  chunk_count (Z.of_nat k1 * n) n = k1 /\
  chunk_count (Z.of_nat k1 * n + L2) n = (k1 + chunk_count L2 n)%nat.
Proof.
  intros HL2 Hn. unfold chunk_count.
  assert (Hk : 0 <= (L2 + n - 1) / n) by (apply Z.div_pos; lia).
  split.
  - replace (Z.of_nat k1 * n + n - 1) with (n - 1 + Z.of_nat k1 * n) by lia.
    rewrite Z.div_add by lia. rewrite Z.div_small by lia. lia.
  - replace (Z.of_nat k1 * n + L2 + n - 1)
      with (L2 + n - 1 + Z.of_nat k1 * n) by lia.
    rewrite Z.div_add by lia. lia.
Qed.

(** X7: for [n >= 1], no chunk of [divide_chunks l n] is empty; there is no
    chunk exactly when [l] is empty; and a list that is not empty and has
    at most [n] elements is a single chunk. *)
Theorem divide_chunks_no_empty_chunk {A : Type} (l : list A) (n : Z) :
  1 <= n ->
  exists chunks,
    divide_chunks l n = Ok chunks /\
    Forall (fun c => c <> []) chunks /\
    (chunks = [] <-> l = []) /\
    (l <> [] -> len l <= n -> chunks = [l]).
Proof.
  intros Hn. eexists. split; [now apply divide_chunks_windows|].
  fold (chunk_count (len l) n).
  assert (Hlast : forall i, (i < chunk_count (len l) n)%nat ->
                            (i * Z.to_nat n < List.length l)%nat).
  { intros i Hi. apply chunk_count_last in Hi; unfold len in *; lia. }
  split; [apply windows_nonempty; [lia | exact Hlast]|].
  split.
  - split.
    + intros Hnil. apply (f_equal (@List.length _)) in Hnil.
      rewrite length_windows in Hnil. simpl in Hnil.
      pose proof (@chunk_count_covers (len l) n) as Hcov.
      rewrite Hnil in Hcov. unfold len in Hcov.
      destruct l; [reflexivity | simpl in Hcov; lia].
    + intros ->. apply length_zero_iff_nil. rewrite length_windows.
      unfold chunk_count, len. simpl List.length.
      change (Z.of_nat 0) with 0. rewrite Z.div_small by lia. reflexivity.
  - intros Hne Hle.
    assert (Hone : chunk_count (len l) n = 1%nat).
    { unfold chunk_count.
      assert (0 < len l) by (destruct l; [contradiction | unfold len; simpl; lia]).
      replace (len l + n - 1) with (len l - 1 + 1 * n) by lia.
      rewrite Z.div_add by lia. rewrite Z.div_small by lia. reflexivity. }
    rewrite Hone. unfold windows. cbn [seq map]. simpl Nat.mul. cbn [skipn].
    f_equal. apply firstn_all2. unfold len in Hle. lia.
Qed.

Lemma divide_chunks_no_empty_chunk_witness :
  exists chunks,
    divide_chunks [1; 2; 3] 5 = Ok chunks /\
    Forall (fun c => c <> []) chunks /\
    (chunks = [] <-> [1; 2; 3] = []) /\
    ([1; 2; 3] <> [] -> len [1; 2; 3] <= 5 -> chunks = [[1; 2; 3]]).
Proof. apply (@divide_chunks_no_empty_chunk Z [1; 2; 3] 5). lia. Defined.

(** X8: for [n >= 1], when the length of [l1] is a multiple of [n], the
    chunks of [l1 ++ l2] are the chunks of [l1] followed by the chunks of
    [l2]. *)
Theorem divide_chunks_app {A : Type} (l1 l2 : list A) (n : Z) (k : nat) :
  1 <= n ->
  len l1 = Z.of_nat k * n ->
  exists c1 c2,
    divide_chunks l1 n = Ok c1 /\
    divide_chunks l2 n = Ok c2 /\
    divide_chunks (l1 ++ l2) n = Ok (c1 ++ c2) /\
    List.length c1 = k.
Proof.
  intros Hn Hl1.
  exists (windows l1 (Z.to_nat n) k),
         (windows l2 (Z.to_nat n) (chunk_count (len l2) n)).
  destruct (@chunk_count_multiple k (len l2) n ltac:(unfold len; lia) Hn)
    as [Hk1 Hk12].
  rewrite !divide_chunks_windows by exact Hn.
  fold (chunk_count (len l1) n) (chunk_count (len l2) n)
       (chunk_count (len (l1 ++ l2)) n).
  assert (Hlen : len (l1 ++ l2) = Z.of_nat k * n + len l2).
  { unfold len in *. rewrite length_app. lia. }
  rewrite Hlen, Hl1, Hk1, Hk12.
  repeat split; [|apply length_windows].
  f_equal. apply windows_app.
  unfold len in Hl1. apply Nat2Z.inj. rewrite Nat2Z.inj_mul. lia.
Qed.

Lemma divide_chunks_app_witness :
  len [1; 2; 3; 4] = Z.of_nat 2 * 2 /\
  divide_chunks ([1; 2; 3; 4] ++ [5; 6; 7]) 2 =
  Ok ([[1; 2]; [3; 4]] ++ [[5; 6]; [7]]).
Proof.
  split; [reflexivity|].
  destruct (@divide_chunks_app Z [1; 2; 3; 4] [5; 6; 7] 2 2
              ltac:(lia) eq_refl)
    as (c1 & c2 & H1 & H2 & H12 & _).
  injection H1 as <-. injection H2 as <-. exact H12.
Defined.

(** ** The number of append calls *)

(** X9: [add_tracks_to_playlist] never raises; it makes
    [max(1, ceil(len(tracks) / 99))] calls of [playlist_add_items] and no
    other call; and when there is at least one track no call carries an
    empty list. *)
Theorem add_tracks_call_count (playlist_id : string) (tracks : list string)
  (s : state) :
  exists batches,
    add_tracks_to_playlist playlist_id tracks s =
    (Ok tt, after s (map (PlaylistAddItems playlist_id) batches)) /\
    len batches = Z.max 1 ((len tracks + 98) / 99) /\
    (tracks <> [] -> Forall (fun b => b <> []) batches).
Proof.
  exists (batches_of tracks). split; [apply add_tracks_run|].
  unfold batches_of. destruct (Z.leb_spec 99 (len tracks)) as [Hlong|Hshort].
  - assert (Hk : 1 <= (len tracks + 98) / 99)
      by (apply Z.div_le_lower_bound; lia).
    split.
    + unfold len at 1. rewrite length_windows. unfold chunk_count.
      replace (len tracks + 99 - 1) with (len tracks + 98) by lia. lia.
    + intros _. apply (@windows_nonempty _ tracks 99); [lia|].
      intros i Hi. apply chunk_count_last in Hi; unfold len in *; lia.
  - assert (Hk : (len tracks + 98) / 99 < 2).
    { apply Z.div_lt_upper_bound; lia. }
    split.
    + change (len [tracks]) with 1. lia.
    + intros Hne. constructor; [exact Hne | constructor].
Qed.

Lemma add_tracks_call_count_witness :
  example_uris 200 <> [] /\
  exists batches,
    add_tracks_to_playlist "pl" (example_uris 200) initial_state =
    (Ok tt, after initial_state (map (PlaylistAddItems "pl") batches)) /\
    len batches = 3 /\
    Forall (fun b => b <> []) batches.
Proof.
  split; [discriminate|].
  destruct (add_tracks_call_count "pl" (example_uris 200) initial_state)
    as (batches & Hrun & Hlen & Hne).
  exists batches. split; [exact Hrun|]. split; [exact Hlen|].
  apply Hne. discriminate.
Defined.

(** ** More on the catalog resolver *)

Lemma SFcompare_refl (x : spec_float) :
  x <> S754_nan -> SFcompare x x = Some Eq.
Proof.
  destruct x as [s|s| |s m e]; simpl; intros Hx.
  - reflexivity.
  - now destruct s.
  - contradiction.
  - rewrite Z.compare_refl.
    change (Pos.compare_cont Eq m m) with (Pos.compare m m).
    rewrite Pos.compare_refl. now destruct s.
Qed.

(** A float that is not equal to itself is a NaN, and a NaN is neither
    equal to nor below any float. *)
Lemma float_nan_compares (t x : float) :
  (t =? t)%float = false ->
  (t =? x)%float = false /\ (t <=? x)%float = false.
Proof.
  rewrite !FloatAxioms.eqb_spec, leb_spec. unfold SFeqb, SFleb. intros Hnan.
  assert (Ht : Prim2SF t = S754_nan).
  { destruct (Prim2SF t) as [s|s| |s m e] eqn:E; try reflexivity;
      rewrite SFcompare_refl in Hnan by discriminate; discriminate. }
  rewrite Ht. split; reflexivity.
Qed.

Section ResolverEdges.

Variable spotify : Spotify.
Variable ratio : string -> string -> float.

(** X10: [get_track] and [get_tracks_from_album] raise in one case only:
    the threshold is not zero and the first search result lists no artist;
    the error is [IndexError], it comes after the search call, and the
    tracks of the album are not fetched. *)
Theorem resolver_raises_iff (artist_name title : string) (t : float)
  (s : state) :
  let q := query_of artist_name title in
  (forall e s',
      get_track spotify ratio artist_name title t s = (Raise e, s') <->
      e = IndexError /\
      s' = after s [Search q "track" (Some 2)] /\
      (t =? 0)%float = false /\
      exists track rest,
        search_track spotify q = track :: rest /\ track_artists track = []) /\
  (forall e s',
      get_tracks_from_album spotify ratio artist_name title t s =
      (Raise e, s') <->
      e = IndexError /\
      s' = after s [Search q "album" None] /\
      (t =? 0)%float = false /\
      exists album rest,
        search_album spotify q = album :: rest /\ album_artists album = []).
Proof.
  intros q. split; intros e s'.
  - rewrite get_track_cases. fold q.
    destruct (search_track spotify q) as [|track rest].
    { split; [discriminate | intros (_ & _ & _ & tr & r & H & _); discriminate]. }
    destruct (t =? 0)%float.
    { split; [discriminate | intros (_ & _ & H & _); discriminate]. }
    destruct (track_artists track) as [|a others] eqn:Ha.
    + split.
      * intros H. injection H as <- <-. repeat split. eauto.
      * intros (-> & -> & _). reflexivity.
    + split.
      * destruct (_ && _); discriminate.
      * intros (_ & _ & _ & tr & r & H & Hnil). injection H as <- <-.
        congruence.
  - rewrite get_tracks_from_album_cases. fold q. cbv zeta.
    destruct (search_album spotify q) as [|album rest].
    { split; [discriminate | intros (_ & _ & _ & al & r & H & _); discriminate]. }
    destruct (t =? 0)%float.
    { split; [discriminate | intros (_ & _ & H & _); discriminate]. }
    destruct (album_artists album) as [|a others] eqn:Ha.
    + split.
      * intros H. injection H as <- <-. repeat split. eauto.
      * intros (-> & -> & _). reflexivity.
    + split.
      * destruct (_ && _); discriminate.
      * intros (_ & _ & _ & al & r & H & Hnil). injection H as <- <-.
        congruence.
Qed.

(** X12: with a threshold that is a NaN, neither function accepts
    anything: what [get_track] returns is the empty string, and what
    [get_tracks_from_album] returns is the empty list. *)
Theorem nan_threshold_rejects (artist_name title : string) (t : float)
  (s : state) :
  (t =? t)%float = false ->
  (forall uri s',
      get_track spotify ratio artist_name title t s = (Ok uri, s') ->
      uri = "") /\
  (forall uris s',
      get_tracks_from_album spotify ratio artist_name title t s =
      (Ok uris, s') ->
      uris = []).
Proof.
  intros Hnan.
  pose proof (fun x => proj1 (float_nan_compares x Hnan)) as Heq.
  pose proof (fun x => proj2 (float_nan_compares x Hnan)) as Hle.
  split.
  - intros uri s'. rewrite get_track_cases. cbv zeta.
    destruct (search_track spotify _) as [|track rest];
      [intros H; now injection H as <- _|].
    rewrite Heq. destruct (track_artists track) as [|a others];
      [discriminate|].
    rewrite Hle. simpl. intros H. now injection H as <- _.
  - intros uris s'. rewrite get_tracks_from_album_cases. cbv zeta.
    destruct (search_album spotify _) as [|album rest];
      [intros H; now injection H as <- _|].
    rewrite Heq. destruct (album_artists album) as [|a others];
      [discriminate|].
    rewrite Hle. simpl. intros H. now injection H as <- _.
Qed.

End ResolverEdges.

(** X11: only the first search result counts: two catalogs whose searches
    have the same first result, or both none, give the same outcome of
    [get_track], whatever follows the first result; the same holds for
    [get_tracks_from_album] when the two catalogs list the same tracks for
    every album. *)
Theorem first_hit_only (sp1 sp2 : Spotify) (ratio : string -> string -> float)
  (artist_name title : string) (t : float) (s : state) :
  let q := query_of artist_name title in
  (hd_error (search_track sp1 q) = hd_error (search_track sp2 q) ->
   get_track sp1 ratio artist_name title t s =
   get_track sp2 ratio artist_name title t s) /\
  (hd_error (search_album sp1 q) = hd_error (search_album sp2 q) ->
   (forall album_id,
       album_tracks_items sp1 album_id = album_tracks_items sp2 album_id) ->
   get_tracks_from_album sp1 ratio artist_name title t s =
   get_tracks_from_album sp2 ratio artist_name title t s).
Proof.
  intros q. split.
  - intros Hhd. rewrite !get_track_cases. fold q.
    destruct (search_track sp1 q) as [|t1 r1],
             (search_track sp2 q) as [|t2 r2]; try discriminate;
      [reflexivity|].
    injection Hhd as ->. reflexivity.
  - intros Hhd Htracks. rewrite !get_tracks_from_album_cases. fold q.
    destruct (search_album sp1 q) as [|a1 r1],
             (search_album sp2 q) as [|a2 r2]; try discriminate;
      [reflexivity|].
    injection Hhd as ->. cbv zeta. rewrite Htracks. reflexivity.
Qed.

Lemma resolver_raises_iff_witness :
  get_track example_spotify_no_artists exact_ratio "X" "X" 0.95%float
    initial_state =
  (Raise IndexError, after initial_state [Search "X X" "track" (Some 2)]) /\
  get_tracks_from_album example_spotify_no_artists exact_ratio "X" "X"
    0.95%float initial_state =
  (Raise IndexError, after initial_state [Search "X X" "album" None]).
Proof.
  destruct (@resolver_raises_iff example_spotify_no_artists exact_ratio
              "X" "X" 0.95%float initial_state) as [Htrack Halbum].
  split.
  - apply Htrack. repeat split. eexists _, _. split; reflexivity.
  - apply Halbum. repeat split. eexists _, _. split; reflexivity.
Defined.

Lemma nan_threshold_rejects_witness :
  (nan =? nan)%float = false /\
  search_track example_spotify (query_of "Wire" "Outdoor Miner") =
    [example_track] /\
  exact_ratio "Wire" "Wire" = 1.0%float /\
  exact_ratio "Outdoor Miner" "Outdoor Miner" = 1.0%float /\
  fst (get_track example_spotify exact_ratio "Wire" "Outdoor Miner" nan
         initial_state) = Ok "".
Proof.
  repeat (split; [reflexivity|]).
  destruct (get_track example_spotify exact_ratio "Wire" "Outdoor Miner" nan
              initial_state) as [[uri|e] s'] eqn:H.
  - simpl. f_equal.
    exact (proj1 (@nan_threshold_rejects example_spotify exact_ratio
                    "Wire" "Outdoor Miner" nan initial_state eq_refl)
             uri s' H).
  - vm_compute in H. discriminate H.
Defined.

Lemma first_hit_only_witness :
  search_track example_spotify_two_hits (query_of "Wire" "Outdoor Miner") =
    [example_track; example_track] /\
  hd_error (search_track example_spotify (query_of "Wire" "Outdoor Miner")) =
  hd_error (search_track example_spotify_two_hits
              (query_of "Wire" "Outdoor Miner")) /\
  get_track example_spotify exact_ratio "Wire" "Outdoor Miner" 0.95%float
    initial_state =
  get_track example_spotify_two_hits exact_ratio "Wire" "Outdoor Miner"
    0.95%float initial_state.
Proof.
  split; [reflexivity|]. split; [reflexivity|].
  apply (proj1 (@first_hit_only example_spotify example_spotify_two_hits
                  exact_ratio "Wire" "Outdoor Miner" 0.95%float
                  initial_state)).
  reflexivity.
Defined.

(** ** The script: what it calls, and when *)

Lemma logs_ret {A : Type} (a : A) : logs (Eff.ret a) (Ok a) [].
Proof. intros s. unfold Eff.ret. now rewrite after_nil. Qed.

Lemma logs_lift {A : Type} (r : result A) : logs (Eff.lift r) r [].
Proof. intros s. unfold Eff.lift. now rewrite after_nil. Qed.

Lemma logs_emit (e : event) : logs (Eff.emit e) (Ok tt) [e].
Proof. intros s. reflexivity. Qed.

Lemma logs_bind {A B : Type} (m : M A) (k : A -> M B) (a : A)
  (r : result B) (e1 e2 : list event) :
  logs m (Ok a) e1 -> logs (k a) r e2 -> logs (Eff.bind m k) r (e1 ++ e2).
Proof.
  intros Hm Hk s. unfold Eff.bind. rewrite Hm, Hk. now rewrite after_after.
Qed.

Lemma logs_bind_raise {A B : Type} (m : M A) (k : A -> M B) (e : exn)
  (e1 : list event) :
  logs m (Raise e) e1 -> logs (Eff.bind m k) (Raise e) e1.
Proof. intros Hm s. unfold Eff.bind. now rewrite Hm. Qed.

(** The answer that selects the prompt for an id is [y], in either case. *)
Lemma lower_is_y (ans : string) :
  (lower ans =? "y")%string = ((ans =? "y") || (ans =? "Y"))%string.
Proof.
  destruct ans as [|c [|c' rest]].
  - reflexivity.
  - destruct c as [[] [] [] [] [] [] [] []]; reflexivity.
  - cbn [lower String.eqb].
    repeat match goal with
      | |- context [Ascii.eqb ?a ?b] => destruct (Ascii.eqb a b)
      end; reflexivity.
Qed.

Section ScriptCalls.

Variable spotify : Spotify.
Variable ratio : string -> string -> float.
Variable USER_ID : string.

Lemma get_track_logs (artist_name title : string) (t : float) :
  exists r evs,
    logs (get_track spotify ratio artist_name title t) r evs /\
    resolution_calls evs.
Proof.
  exists (fst (get_track spotify ratio artist_name title t initial_state)),
         [Search (query_of artist_name title) "track" (Some 2)].
  split.
  - intros s. rewrite !get_track_cases. cbv zeta.
    destruct (search_track spotify _) as [|track rest]; [reflexivity|].
    destruct (t =? 0)%float; [reflexivity|].
    destruct (track_artists track) as [|a others]; [reflexivity|].
    destruct (_ && _); reflexivity.
  - repeat split. repeat constructor.
Qed.

Lemma get_tracks_from_album_logs (artist_name title : string) (t : float) :
  exists r evs,
    logs (get_tracks_from_album spotify ratio artist_name title t) r evs /\
    resolution_calls evs.
Proof.
  pose (q := query_of artist_name title).
  assert (H1 : resolution_calls [Search q "album" None])
    by (repeat split; repeat constructor).
  assert (H2 : forall id, resolution_calls [Search q "album" None;
                                            AlbumTracks id])
    by (intros id; repeat split; repeat constructor).
  destruct (search_album spotify q) as [|album rest] eqn:Hs.
  { exists (Ok []), [Search q "album" None]. split; [|exact H1].
    intros s. rewrite get_tracks_from_album_cases. fold q. now rewrite Hs. }
  destruct (t =? 0)%float eqn:Ht.
  { eexists _, [Search q "album" None; AlbumTracks (album_uri album)].
    split; [|apply H2].
    intros s. rewrite get_tracks_from_album_cases. fold q.
    rewrite Hs. cbv zeta. rewrite Ht. reflexivity. }
  destruct (album_artists album) as [|a others] eqn:Ha.
  { exists (Raise IndexError), [Search q "album" None]. split; [|exact H1].
    intros s. rewrite get_tracks_from_album_cases. fold q.
    rewrite Hs. cbv zeta. rewrite Ht, Ha. reflexivity. }
  destruct ((t <=? str_similarity ratio a artist_name)%float
            && (t <=? str_similarity ratio title (album_name album))%float)
    eqn:Hb.
  - eexists _, [Search q "album" None; AlbumTracks (album_uri album)].
    split; [|apply H2].
    intros s. rewrite get_tracks_from_album_cases. fold q.
    rewrite Hs. cbv zeta. rewrite Ht, Ha, Hb. reflexivity.
  - exists (Ok []), [Search q "album" None]. split; [|exact H1].
    intros s. rewrite get_tracks_from_album_cases. fold q.
    rewrite Hs. cbv zeta. rewrite Ht, Ha, Hb. reflexivity.
Qed.

Lemma fetch_uris_cons_album (list_entry : Entry) (rest : list Entry)
  (to_be_added : list string) :
  (type list_entry =? "album")%string = true ->
  fetch_uris spotify ratio (list_entry :: rest) to_be_added =
  Eff.bind
    (get_tracks_from_album spotify ratio (artist list_entry)
       (title list_entry) default_similarity_threshold)
    (fun album_items =>
       Eff.bind (Eff.emit (Sleep 0.25%float))
         (fun _ => fetch_uris spotify ratio rest
                     (to_be_added ++ album_items))).
Proof. intros H. simpl. now rewrite H. Qed.

Lemma fetch_uris_cons_single (list_entry : Entry) (rest : list Entry)
  (to_be_added : list string) :
  (type list_entry =? "album")%string = false ->
  fetch_uris spotify ratio (list_entry :: rest) to_be_added =
  Eff.bind
    (get_track spotify ratio (artist list_entry) (title list_entry)
       default_similarity_threshold)
    (fun item =>
       Eff.bind (Eff.emit (Sleep 0.25%float))
         (fun _ => fetch_uris spotify ratio rest (to_be_added ++ [item]))).
Proof. intros H. simpl. now rewrite H. Qed.

(** What the loop over the entries returns and calls. *)
Lemma fetch_uris_logs (list_entries : list Entry) :
  forall to_be_added,
  exists r evs,
    logs (fetch_uris spotify ratio list_entries to_be_added) r evs /\
    Forall (fun e => is_playlist_call e = false) evs /\
    (forall res,
        r = Ok res ->
        exists added,
          res = to_be_added ++ added /\
          (List.length (filter is_single list_entries)
           <= List.length added)%nat /\
          (forallb is_single list_entries = true ->
           List.length added = List.length list_entries) /\
          List.length (filter is_search evs) = List.length list_entries /\
          List.length (filter is_sleep evs) = List.length list_entries).
Proof.
  induction list_entries as [|e rest IH]; intros acc.
  - exists (Ok acc), []. split; [apply logs_ret|]. split; [constructor|].
    intros res H. injection H as <-. exists []. rewrite app_nil_r.
    repeat split; simpl; lia.
  - destruct (type e =? "album")%string eqn:Hty.
    + rewrite (fetch_uris_cons_album _ _ _ Hty).
      destruct (get_tracks_from_album_logs (artist e) (title e)
                  default_similarity_threshold)
        as (r1 & evs1 & Hl1 & Hp1 & Hs1 & Hz1).
      destruct r1 as [items|ex].
      * destruct (IH (acc ++ items)) as (r & evs & Hl & Hp & Hres).
        exists r, (evs1 ++ [Sleep 0.25%float] ++ evs).
        split.
        { eapply logs_bind; [exact Hl1|].
          eapply logs_bind; [apply logs_emit | exact Hl]. }
        split.
        { apply Forall_app. split; [exact Hp1|].
          constructor; [reflexivity | exact Hp]. }
        intros res Hr. destruct (Hres res Hr)
          as (added & -> & Hcount & Hall & Hsearch & Hsleep).
        exists (items ++ added). split; [now rewrite app_assoc|].
        assert (Hse : is_single e = false)
          by (unfold is_single; now rewrite Hty).
        cbn [filter forallb]. rewrite Hse.
        cbn [andb]. rewrite !filter_app, !length_app.
        cbn [filter is_search is_sleep List.length].
        repeat split; try lia.
      * exists (Raise ex), evs1.
        split; [now apply logs_bind_raise|]. split; [exact Hp1|].
        discriminate.
    + rewrite (fetch_uris_cons_single _ _ _ Hty).
      destruct (get_track_logs (artist e) (title e)
                  default_similarity_threshold)
        as (r1 & evs1 & Hl1 & Hp1 & Hs1 & Hz1).
      destruct r1 as [item|ex].
      * destruct (IH (acc ++ [item])) as (r & evs & Hl & Hp & Hres).
        exists r, (evs1 ++ [Sleep 0.25%float] ++ evs).
        split.
        { eapply logs_bind; [exact Hl1|].
          eapply logs_bind; [apply logs_emit | exact Hl]. }
        split.
        { apply Forall_app. split; [exact Hp1|].
          constructor; [reflexivity | exact Hp]. }
        intros res Hr. destruct (Hres res Hr)
          as (added & -> & Hcount & Hall & Hsearch & Hsleep).
        exists (item :: added). split; [now rewrite <- app_assoc|].
        assert (Hse : is_single e = true)
          by (unfold is_single; now rewrite Hty).
        cbn [filter forallb]. rewrite Hse.
        cbn [andb]. rewrite !filter_app, !length_app.
        cbn [filter is_search is_sleep List.length].
        repeat split; try lia. intros H. specialize (Hall H). lia.
      * exists (Raise ex), evs1.
        split; [now apply logs_bind_raise|]. split; [exact Hp1|].
        discriminate.
Qed.

(** X13: the loop over the entries only appends to [to_be_added]: what
    was there stays in front; every entry that is not an album adds an
    element, so the list grows by at least the number of such entries;
    and with no album among the entries it grows by exactly one element
    per entry, found or not. *)
Theorem fetch_uris_accumulates (list_entries : list Entry)
  (to_be_added res : list string) (s s' : state) :
  fetch_uris spotify ratio list_entries to_be_added s = (Ok res, s') ->
  exists added,
    res = to_be_added ++ added /\
    (List.length (filter is_single list_entries) <= List.length added)%nat /\
    (forallb is_single list_entries = true ->
     List.length added = List.length list_entries).
Proof.
  intros Hrun.
  destruct (fetch_uris_logs list_entries to_be_added)
    as (r & evs & Hl & _ & Hres).
  rewrite Hl in Hrun. injection Hrun as Hr _.
  destruct (Hres res Hr) as (added & Hadd & Hcount & Hall & _).
  exists added. repeat split; assumption.
Qed.

(** X14: the loop over the entries reads nothing from stdin and calls no
    playlist method, whether it returns or raises; when it returns, it has
    made exactly one search and one sleep per entry. *)
Theorem fetch_uris_paces (list_entries : list Entry)
  (to_be_added : list string) (r : result (list string)) (s s' : state) :
  fetch_uris spotify ratio list_entries to_be_added s = (r, s') ->
  exists evs,
    s' = after s evs /\
    Forall (fun e => is_playlist_call e = false) evs /\
    (forall res,
        r = Ok res ->
        List.length (filter is_search evs) = List.length list_entries /\
        List.length (filter is_sleep evs) = List.length list_entries).
Proof.
  intros Hrun.
  destruct (fetch_uris_logs list_entries to_be_added)
    as (r0 & evs & Hl & Hp & Hres).
  rewrite Hl in Hrun. injection Hrun as <- <-.
  exists evs. repeat split; try assumption;
    destruct (Hres res H) as (added & _ & _ & _ & Hsearch & Hsleep);
    assumption.
Qed.

(** [publish] creates a playlist and then only appends to it. *)
Lemma publish_logs (playlist_name : string) (to_be_added : list string) :
  logs (publish spotify USER_ID playlist_name to_be_added) (Ok tt)
    (UserPlaylistCreate USER_ID playlist_name default_description
     :: map (PlaylistAddItems
               (user_playlist_create_id spotify USER_ID playlist_name
                  default_description))
            (batches_of to_be_added)).
Proof.
  intros s. unfold publish, create_playlist.
  unfold Eff.bind at 1. unfold Eff.bind at 1. rewrite emit_after.
  unfold Eff.ret. rewrite add_tracks_run, after_after. reflexivity.
Qed.

Lemma not_playlist_call_targets (playlist_id : string) (evs : list event) :
  Forall (fun e => is_playlist_call e = false) evs ->
  Forall (targets playlist_id) evs /\ filter is_create evs = [].
Proof.
  induction 1 as [|e evs He _ [IH1 IH2]]; [split; constructor|].
  split.
  - constructor; [|exact IH1]. destruct e; try exact I. discriminate He.
  - simpl. destruct e; try exact IH2. discriminate He.
Qed.

Lemma add_items_targets (playlist_id : string) (batches : list (list string)) :
  Forall (targets playlist_id) (map (PlaylistAddItems playlist_id) batches) /\
  filter is_create (map (PlaylistAddItems playlist_id) batches) = [].
Proof.
  induction batches as [|b batches [IH1 IH2]]; split; simpl;
    try constructor; try assumption; reflexivity.
Qed.

(** What the script does after its prompts. *)
Lemma script_body_logs (pages : list Page) (playlist_name : string) :
  exists r evs,
    logs (script_body spotify ratio USER_ID pages playlist_name) r evs /\
    Forall (targets (user_playlist_create_id spotify USER_ID playlist_name
                       default_description)) evs /\
    match r with
    | Raise _ => Forall (fun e => is_playlist_call e = false) evs
    | Ok _ => List.length (filter is_create evs) = 1%nat
    end.
Proof.
  set (created := user_playlist_create_id spotify USER_ID playlist_name
                    default_description).
  unfold script_body.
  destruct (get_entries pages) as [list_entries|ex].
  2:{ exists (Raise ex), []. split; [|split; constructor].
      apply logs_bind_raise, logs_lift. }
  destruct (fetch_uris_logs list_entries [])
    as (r1 & evs1 & Hl1 & Hp1 & _).
  destruct (not_playlist_call_targets created Hp1) as [Ht1 Hc1].
  destruct r1 as [to_be_added|ex].
  - exists (Ok tt),
           ([] ++ evs1 ++
            UserPlaylistCreate USER_ID playlist_name default_description
            :: map (PlaylistAddItems created) (batches_of to_be_added)).
    destruct (add_items_targets created (batches_of to_be_added))
      as [Ht2 Hc2].
    split.
    { eapply logs_bind; [apply logs_lift|].
      eapply logs_bind; [exact Hl1 | apply publish_logs]. }
    split.
    + simpl. apply Forall_app. split; [exact Ht1|].
      constructor; [exact I | exact Ht2].
    + simpl. rewrite filter_app, Hc1. simpl. now rewrite Hc2.
  - exists (Raise ex), ([] ++ evs1). split.
    { eapply logs_bind; [apply logs_lift|]. now apply logs_bind_raise. }
    split; assumption.
Qed.

(** The script with two lines on stdin: two prompts, then the body. *)
Lemma main_two_answers (pages : list Page) (ans playlist_name : string)
  (rest : list string) (tr : list event) :
  main spotify ratio USER_ID pages
    {| stdin := ans :: playlist_name :: rest; trace := tr |} =
  script_body spotify ratio USER_ID pages playlist_name
    {| stdin := rest;
       trace := tr ++ [Input "Add to existing playlist? (y/n)";
                       Input (second_prompt ans)] |}.
Proof.
  unfold main, script_body. unfold Eff.bind at 1. unfold Eff.input at 1.
  cbn [stdin trace]. unfold Eff.bind at 1.
  rewrite lower_is_y. unfold second_prompt.
  destruct ((ans =? "y") || (ans =? "Y"))%string;
    unfold Eff.input; cbn [stdin trace]; rewrite <- app_assoc; reflexivity.
Qed.

(** The script with one line on stdin: the second prompt finds nothing to
    read. *)
Lemma main_one_answer (pages : list Page) (ans : string) (tr : list event) :
  main spotify ratio USER_ID pages {| stdin := [ans]; trace := tr |} =
  (Raise EOFError,
   {| stdin := [];
      trace := tr ++ [Input "Add to existing playlist? (y/n)";
                      Input (second_prompt ans)] |}).
Proof.
  unfold main. unfold Eff.bind at 1. unfold Eff.input at 1.
  cbn [stdin trace]. unfold Eff.bind at 1.
  rewrite lower_is_y. unfold second_prompt.
  destruct ((ans =? "y") || (ans =? "Y"))%string;
    unfold Eff.input; cbn [stdin trace]; rewrite <- app_assoc; reflexivity.
Qed.

(** X15: a run of the script that raises, at a prompt, on a page or on a
    search result, has called no playlist method: nothing was created and
    nothing was appended; a run that returns has created exactly one
    playlist. *)
Theorem main_playlist_calls (pages : list Page) (s : state) :
  exists evs,
    trace (snd (main spotify ratio USER_ID pages s)) = trace s ++ evs /\
    match fst (main spotify ratio USER_ID pages s) with
    | Raise _ => Forall (fun e => is_playlist_call e = false) evs
    | Ok _ => List.length (filter is_create evs) = 1%nat
    end.
Proof.
  destruct s as [[|ans [|playlist_name rest]] tr].
  - exists [Input "Add to existing playlist? (y/n)"].
    split; [reflexivity | repeat constructor].
  - exists [Input "Add to existing playlist? (y/n)";
            Input (second_prompt ans)].
    rewrite main_one_answer. split; [reflexivity | repeat constructor].
  - rewrite main_two_answers.
    destruct (script_body_logs pages playlist_name)
      as (r & evs & Hl & _ & Hr).
    rewrite Hl. cbn [fst snd after trace].
    exists ([Input "Add to existing playlist? (y/n)";
             Input (second_prompt ans)] ++ evs).
    split; [now rewrite app_assoc|].
    destruct r as [u|ex].
    + rewrite filter_app. exact Hr.
    + apply Forall_app. split; [repeat constructor | exact Hr].
Qed.

(** X16: the answer to the first prompt chooses the second prompt, the one
    for an id after [y] or [Y] and the one for a name otherwise, and
    nothing else: the result of the script, the calls that follow the
    prompts and their arguments are the same for every answer.  Among
    these calls, every [playlist_add_items] has as its target the playlist
    that the script creates with the second line as its name. *)
Theorem main_ignores_answer (pages : list Page) (playlist_name : string)
  (rest : list string) :
  exists r evs,
    (forall ans tr,
        main spotify ratio USER_ID pages
          {| stdin := ans :: playlist_name :: rest; trace := tr |} =
        (r, {| stdin := rest;
               trace := tr ++ Input "Add to existing playlist? (y/n)"
                           :: Input (second_prompt ans) :: evs |})) /\
    Forall (targets (user_playlist_create_id spotify USER_ID playlist_name
                       default_description)) evs.
Proof.
  destruct (script_body_logs pages playlist_name)
    as (r & evs & Hl & Ht & _).
  exists r, evs. split; [|exact Ht].
  intros ans tr. rewrite main_two_answers, Hl.
  unfold after. cbn [stdin trace]. now rewrite <- app_assoc.
Qed.

End ScriptCalls.

Lemma fetch_uris_accumulates_witness :
  fetch_uris example_spotify exact_ratio
    [example_unknown_single; example_unknown_single] ["spotify:track:0"]
    initial_state =
  (Ok ["spotify:track:0"; ""; ""],
   after initial_state
     [Search "Nobody Nothing" "track" (Some 2); Sleep 0.25%float;
      Search "Nobody Nothing" "track" (Some 2); Sleep 0.25%float]) /\
  exists added,
    ["spotify:track:0"; ""; ""] = ["spotify:track:0"] ++ added /\
    (List.length (filter is_single
                    [example_unknown_single; example_unknown_single])
     <= List.length added)%nat /\
    (forallb is_single [example_unknown_single; example_unknown_single]
     = true ->
     List.length added =
     List.length [example_unknown_single; example_unknown_single]).
Proof.
  assert (Hrun :
    fetch_uris example_spotify exact_ratio
      [example_unknown_single; example_unknown_single] ["spotify:track:0"]
      initial_state =
    (Ok ["spotify:track:0"; ""; ""],
     after initial_state
       [Search "Nobody Nothing" "track" (Some 2); Sleep 0.25%float;
        Search "Nobody Nothing" "track" (Some 2); Sleep 0.25%float]))
    by (vm_compute; reflexivity).
  split; [exact Hrun|].
  exact (fetch_uris_accumulates _ _ _ _ _ Hrun).
Defined.

Lemma fetch_uris_paces_witness :
  exists evs,
    snd (fetch_uris example_spotify exact_ratio
           [ {| artist := "Can"; title := "Tago Mago"; type := "album" |};
             example_unknown_single ] [] initial_state) =
    after initial_state evs /\
    Forall (fun e => is_playlist_call e = false) evs /\
    List.length (filter is_search evs) = 2%nat /\
    List.length (filter is_sleep evs) = 2%nat.
Proof.
  destruct (fetch_uris example_spotify exact_ratio
              [ {| artist := "Can"; title := "Tago Mago"; type := "album" |};
                example_unknown_single ] [] initial_state)
    as [r s'] eqn:Hrun.
  destruct (fetch_uris_paces _ _ _ _ _ Hrun) as (evs & Hs' & Hp & Hcount).
  exists evs. split; [exact Hs'|]. split; [exact Hp|].
  destruct r as [res|ex].
  - exact (Hcount res eq_refl).
  - vm_compute in Hrun. discriminate Hrun.
Defined.

(** A catalog whose first track lists no artist: the script raises after
    the album was resolved, and no playlist exists. *)
Example main_raises_before_publish :
  main example_spotify_bad_track exact_ratio "user" [example_page_known]
    {| stdin := ["n"; "Krautrock"]; trace := [] |} =
  (Raise IndexError,
   {| stdin := [];
      trace :=
        [ Input "Add to existing playlist? (y/n)";
          Input "Please enter a name for the playlist: ";
          Search "Can Tago Mago" "album" None;
          AlbumTracks "spotify:album:tm";
          Sleep 0.25%float;
          Search "Wire Outdoor Miner" "track" (Some 2) ] |}).
Proof. vm_compute. reflexivity. Qed.

Lemma main_playlist_calls_witness :
  exists evs,
    trace (snd (main example_spotify_bad_track exact_ratio "user"
                  [example_page_known]
                  {| stdin := ["n"; "Krautrock"]; trace := [] |})) =
    [] ++ evs /\
    Forall (fun e => is_playlist_call e = false) evs.
Proof.
  destruct (main_playlist_calls example_spotify_bad_track exact_ratio "user"
              [example_page_known]
              {| stdin := ["n"; "Krautrock"]; trace := [] |})
    as (evs & Htrace & Hcalls).
  exists evs. split; [exact Htrace|].
  rewrite main_raises_before_publish in Hcalls. exact Hcalls.
Defined.

(** The second prompt after some answers. *)
Example second_prompt_answers :
  second_prompt "y" =
    "Please enter the ID of the playlist you wish to add to: " /\
  second_prompt "Y" =
    "Please enter the ID of the playlist you wish to add to: " /\
  second_prompt "yes" = "Please enter a name for the playlist: " /\
  second_prompt "" = "Please enter a name for the playlist: ".
Proof. repeat split. Qed.
